(** * pydune.math: degree trigonometry, polar conversion, circular mean and
    angular binning

    A shallow embedding of [src/pydune/math.py] and the properties of its
    functions: first the model, then the properties.

    The model has five parts.

    - [Broadcast]: one-dimensional arrays and numpy's broadcasting.
    - [Exact]: the element-wise functions and [vector_average] over the real
      numbers (binary64 values read as the reals they denote, NaN as [None]
      where a function may produce it or must skip it).
    - [B64]: [cartesian_to_polar] in IEEE binary64, over the Standard
      Library's [SpecFloat], for the one place where a rounding decides what
      the function can return.
    - [Binning]: the histogram-based functions over the rationals (every
      finite binary64 value is one), which keeps them executable; a value
      that is not finite is [None].
    - [Store]: [make_angular_average] with its arrays in a store, for what
      the assignments in place write to.

    [numpy], [xhistogram] and the C library are what the module calls; what
    is needed of them is modelled from their documentation and marked as
    such.  Functions that take an [axis] are modelled along that axis, on
    one-dimensional arrays. *)

From stdpp Require Import gmap.
From Stdlib Require Import Reals QArith Psatz Lia List ZArith Bool Floats.SpecFloat.
Import ListNotations.

(** * The model *)

(** ** Arrays and broadcasting *)

(** One-dimensional arrays are lists; a scalar is an array of length one.
    Two shapes [(n,)] and [(m,)] broadcast when [n = m] or one of them is 1;
    otherwise numpy raises [ValueError], here [None]. *)
Module Broadcast.

Fixpoint zip_with {A B C : Type} (f : A -> B -> C) (a : list A) (b : list B)
  : list C :=
  match a, b with
  | x :: a', y :: b' => f x y :: zip_with f a' b'
  | _, _ => []
  end.

Definition broadcast2 {A B C : Type} (f : A -> B -> C)
           (a : list A) (b : list B) : option (list C) :=
  if Nat.eqb (length a) (length b) then Some (zip_with f a b)
  else match a, b with
       | [x], _ => Some (map (f x) b)
       | _, [y] => Some (map (fun x => f x y) a)
       | _, _ => None
       end.

(** The element of [a] that position [i] of the broadcast result reads. *)
Definition bget {A : Type} (a : list A) (i : nat) : option A :=
  match a with
  | [x] => Some x
  | _ => nth_error a i
  end.

End Broadcast.

(** ** The element-wise functions over the reals *)

Module Exact.
Import Broadcast.
Local Open Scope R_scope.

(** *** numpy primitives *)

(** [np.radians(x)] is [x * (pi / 180)] and [np.degrees(x)] is
    [x * (180 / pi)]. *)
Definition radians (x : R) : R := x * (PI / 180).
Definition degrees (x : R) : R := x * (180 / PI).

(** Modelled from numpy's documentation of [np.arctan2(x1, x2)]: the signed
    angle in radians between the ray ending at the origin and passing through
    [(1, 0)] and the ray through [(x2, x1)]; [x1] is the y-coordinate.  The
    values on the axes and at the origin are those of the table of special
    values: [arctan2(0, x2) = 0] for [x2 >= 0] and [pi] for [x2 < 0]. *)
Definition arctan2 (x1 x2 : R) : R :=
  if Rlt_dec 0 x2 then atan (x1 / x2)
  else if Rlt_dec x2 0 then
         if Rle_dec 0 x1 then atan (x1 / x2) + PI else atan (x1 / x2) - PI
       else if Rlt_dec 0 x1 then PI / 2
            else if Rlt_dec x1 0 then - (PI / 2)
                 else 0.

(** [floor] on the reals. *)
Definition floor (x : R) : Z := Int_part x.

(** Modelled from numpy's documentation of [%] ([np.remainder]): the
    remainder complementary to [floor_divide], with the sign of the divisor.
    The module only divides by the literal 360. *)
Definition np_mod (a b : R) : R := a - IZR (floor (a / b)) * b.

(** *** Trigonometric functions in degrees *)

Definition tand (x : R) : R := tan (radians x).
Definition sind (x : R) : R := sin (radians x).
Definition cosd (x : R) : R := cos (radians x).
Definition arctand (x : R) : R := degrees (atan x).
Definition arctan2d (x1 x2 : R) : R := degrees (arctan2 x1 x2).

(** *** cartesian_to_polar *)

Definition cartesian_to_polar (x y : R) : R * R :=
  let r := sqrt (x ^ 2 + y ^ 2) in
  let theta := np_mod (arctan2d y x) 360 in
  (r, theta).

(** The functions on arrays: numpy applies them element by element after
    broadcasting the two arguments. *)
Definition arctan2d_array (x1 x2 : list R) : option (list R) :=
  broadcast2 arctan2d x1 x2.

Definition cartesian_to_polar_array (x y : list R)
  : option (list R * list R) :=
  match broadcast2 cartesian_to_polar x y with
  | Some out => Some (map fst out, map snd out)
  | None => None
  end.

(** *** vector_average *)

(** A binary64 value that is a real number, or NaN ([None]). *)
Definition fl : Type := option R.

(** Complex numbers as numpy holds them: a real and an imaginary part. *)
Definition C : Type := (R * R)%type.

Definition Cre (z : C) : R := fst z.
Definition Cim (z : C) : R := snd z.
Definition Cof_real (r : R) : C := (r, 0).
Definition Cj : C := (0, 1).
Definition Cadd (a b : C) : C := (Cre a + Cre b, Cim a + Cim b).
Definition Cmul (a b : C) : C :=
  (Cre a * Cre b - Cim a * Cim b, Cre a * Cim b + Cim a * Cre b).
Definition Cexp (z : C) : C :=
  (exp (Cre z) * cos (Cim z), exp (Cre z) * sin (Cim z)).
Definition Cdiv_real (z : C) (n : R) : C := (Cre z / n, Cim z / n).

(** [np.angle] and [np.absolute]. *)
Definition Cangle (z : C) : R := arctan2 (Cim z) (Cre z).
Definition Cabs (z : C) : R := sqrt (Cre z ^ 2 + Cim z ^ 2).

(** One entry of [norm * np.exp(1j * np.radians(angles))]; a NaN angle or
    norm makes both parts of the product NaN. *)
Definition vector_term (norm angle : fl) : option C :=
  match norm, angle with
  | Some n, Some a =>
      Some (Cmul (Cof_real n) (Cexp (Cmul Cj (Cof_real (radians a)))))
  | _, _ => None
  end.

Definition not_nan {A : Type} (l : list (option A)) : list A :=
  flat_map (fun o => match o with Some v => [v] | None => [] end) l.

Definition Csum (l : list C) : C := fold_right Cadd (0, 0) l.

(** [np.nanmean]: the sum of the entries that are not NaN over their number;
    NaN when there is none. *)
Definition nanmean (l : list (option C)) : option C :=
  match not_nan l with
  | [] => None
  | vals => Some (Cdiv_real (Csum vals) (INR (length vals)))
  end.

(** [vector_average] along the averaged axis: [None] is the [ValueError] of
    shapes that do not broadcast. *)
Definition vector_average (angles norm : list fl) : option (fl * fl) :=
  match broadcast2 vector_term norm angles with
  | None => None
  | Some terms =>
      let average := nanmean terms in
      Some (option_map (fun z => degrees (Cangle z)) average,
            option_map Cabs average)
  end.

(** The same function in the words of the specification: the mean resultant
    vector of the (angle, norm) pairs that hold no NaN, decomposed into its
    argument in degrees and its magnitude. *)
Definition pair_up (norm angle : fl) : option (R * R) :=
  match norm, angle with
  | Some n, Some a => Some (a, n)
  | _, _ => None
  end.

Definition Rsum (l : list R) : R := fold_right Rplus 0 l.

Definition mean_resultant (pairs : list (R * R)) : R * R :=
  let n := INR (length pairs) in
  (Rsum (map (fun p => snd p * cos (radians (fst p))) pairs) / n,
   Rsum (map (fun p => snd p * sin (radians (fst p))) pairs) / n).

Definition vector_average_spec (angles norm : list fl) : option (fl * fl) :=
  match broadcast2 pair_up norm angles with
  | None => None
  | Some pairs =>
      match not_nan pairs with
      | [] => Some (None, None)
      | valid =>
          let '(X, Y) := mean_resultant valid in
          Some (Some (degrees (arctan2 Y X)), Some (sqrt (X ^ 2 + Y ^ 2)))
      end
  end.

(** The vector of an (angle, norm) pair. *)
Definition polar_term (p : R * R) : C :=
  (snd p * cos (radians (fst p)), snd p * sin (radians (fst p))).

(** *** arcsind *)

(** Modelled from numpy's documentation of [np.arcsin]: the inverse sine,
    in [[-pi/2, pi/2]], of a value in [[-1, 1]]; outside that domain the
    result is NaN (with a warning, no exception). *)
Definition np_arcsin (x : R) : fl :=
  if Rle_dec (-1) x then if Rle_dec x 1 then Some (asin x) else None
  else None.

Definition arcsind (x : R) : fl := option_map degrees (np_arcsin x).

End Exact.

(** ** The remainder of cartesian_to_polar in binary64 *)

(** The arrays of the module hold IEEE binary64 values.  Where a property
    turns on a rounding, the operations are those of the Standard Library's
    [SpecFloat] at precision 53 and maximal exponent 1024, which computes
    every operation exactly and rounds once, to nearest, ties to even. *)
Module B64.
Local Open Scope Z_scope.

Definition prec : Z := 53.
Definition emax : Z := 1024.

Abbreviation float := spec_float.

Definition add : float -> float -> float := SFadd prec emax.
Definition mul : float -> float -> float := SFmul prec emax.
Definition div : float -> float -> float := SFdiv prec emax.
Definition sqrt : float -> float := SFsqrt prec emax.
Definition ltb : float -> float -> bool := SFltb.
Definition eqb : float -> float -> bool := SFeqb.

(** An integer, or an integer times a power of two, as a binary64 value. *)
Definition of_Z (z : Z) : float := binary_normalize prec emax z 0 false.
Definition ldexp_Z (z e : Z) : float := binary_normalize prec emax z e false.

Definition zero : float := S754_zero false.
Definition one : float := of_Z 1.
Definition f180 : float := of_Z 180.
Definition f360 : float := of_Z 360.

(** [NPY_PI], the double nearest to pi. *)
Definition npy_pi : float := S754_finite false 7074237752028440 (-51).

Definition is_finite (x : float) : bool :=
  match x with
  | S754_zero _ | S754_finite _ _ _ => true
  | _ => false
  end.

Definition is_zero (x : float) : bool :=
  match x with
  | S754_zero _ => true
  | _ => false
  end.

Definition sign (x : float) : bool :=
  match x with
  | S754_zero s | S754_infinity s | S754_finite s _ _ => s
  | S754_nan => false
  end.

Definition copysign_zero (b : float) : float := S754_zero (sign b).

(** C's [fmod(x, y)]: [x - n * y] for the integer [n] that is [x / y]
    truncated toward zero; the result has the sign of [x] and is computed
    without rounding.  With [x = mx * 2^ex] and [y = my * 2^ey], both are
    integers in units of [2^e] for [e] the smaller exponent. *)
Definition fmod (x y : float) : float :=
  match x, y with
  | S754_nan, _ | _, S754_nan => S754_nan
  | S754_infinity _, _ => S754_nan
  | _, S754_zero _ => S754_nan
  | S754_zero s, _ => S754_zero s
  | S754_finite _ _ _, S754_infinity _ => x
  | S754_finite sx mx ex, S754_finite _ my ey =>
      let e := Z.min ex ey in
      let X := Z.pos mx * 2 ^ (ex - e) in
      let Y := Z.pos my * 2 ^ (ey - e) in
      match X mod Y with
      | Z0 => S754_zero sx
      | R => binary_normalize prec emax (cond_Zopp sx R) e false
      end
  end.

(** numpy's remainder of two doubles ([npy_divmod], which is also what
    Python's [%] does on floats): [fmod], moved by one divisor when its sign
    differs from the divisor's, and a zero that takes the divisor's sign.
    The move is an addition, and it rounds. *)
Definition remainder (a b : float) : float :=
  let m := fmod a b in
  if is_zero b then m
  else if negb (eqb m zero) then
         if xorb (ltb b zero) (ltb m zero) then add m b else m
       else copysign_zero b.

(** [np.degrees(x)] is [x * (180.0 / NPY_PI)], the factor being a double. *)
Definition rad2deg : float := div f180 npy_pi.
Definition degrees (x : float) : float := mul x rad2deg.

Section Libm.

(** [np.arctan2] on doubles is the [atan2] of the C library the interpreter
    is linked with, a function this module takes as it is. *)
Variable arctan2 : float -> float -> float.

Definition arctan2d (x1 x2 : float) : float := degrees (arctan2 x1 x2).

(** [x ** 2] on an array is the square [x * x]. *)
Definition cartesian_to_polar (x y : float) : float * float :=
  let r := sqrt (add (mul x x) (mul y y)) in
  let theta := remainder (arctan2d y x) f360 in
  (r, theta).

End Libm.

(** The value of a double, [m * 2^e], is at most 360 and not negative;
    stated on integers, [m <= 45 * 2^(3 - e)] since [360 = 45 * 2^3]. *)
Definition in_0_360 (x : float) : bool :=
  match x with
  | S754_zero _ => true
  | S754_finite false m e =>
      if e <=? 3 then Z.pos m <=? 45 * 2 ^ (3 - e)
      else Z.pos m * 2 ^ (e - 3) <=? 45
  | _ => false
  end.

(** [-2^-70], a double. *)
Definition tiny_negative : float := ldexp_Z (-1) (-70).

(** The real number a finite double denotes, and the next double up. *)
Definition to_R (x : float) : R :=
  match x with
  | S754_finite s m e => (IZR (cond_Zopp s (Z.pos m)) * powerRZ 2 e)%R
  | _ => 0%R
  end.

Definition succ : float -> float := SFsucc prec emax.

(** A zero or a finite double of sign [s] whose magnitude is at most 360. *)
Definition bounded_360 (s : bool) (x : float) : Prop :=
  match x with
  | S754_zero s' => s' = s
  | S754_finite s' m e => s' = s /\ e <= 3 /\ Z.pos m <= 45 * 2 ^ (3 - e)
  | _ => False
  end.

(** Two doubles that are the same datum. *)
Definition same_float (a b : float) : bool :=
  match a, b with
  | S754_zero s, S754_zero s' => Bool.eqb s s'
  | S754_infinity s, S754_infinity s' => Bool.eqb s s'
  | S754_nan, S754_nan => true
  | S754_finite s m e, S754_finite s' m' e' =>
      Bool.eqb s s' && Pos.eqb m m' && Z.eqb e e'
  | _, _ => false
  end.

(** [np.radians(x)] is [x * (NPY_PI / 180.0)], the factor being a double. *)
Definition deg2rad : float := div npy_pi f180.
Definition radians (x : float) : float := mul x deg2rad.

Definition f90 : float := of_Z 90.

(** Half of [NPY_PI]: the double nearest to pi / 2. *)
Definition half_pi : float := S754_finite false 7074237752028440 (-52).

Section LibmTrig.

(** [np.sin], [np.cos] and [np.arctan] on doubles are the functions of the C
    library. *)
Variables sin cos arctan : float -> float.

Definition sind (x : float) : float := sin (radians x).
Definition cosd (x : float) : float := cos (radians x).
Definition arctand (x : float) : float := degrees (arctan x).

End LibmTrig.

End B64.

(** ** The histogram-based functions over the rationals *)

Module Binning.
Import Broadcast.
Local Open Scope Q_scope.

(** *** Python and numpy primitives *)

(** [a[i]] for a Python index: negative indices count from the end, and an
    index outside the array raises [IndexError] ([None]). *)
Definition py_index {A : Type} (a : list A) (i : Z) : option A :=
  let n := Z.of_nat (length a) in
  if (0 <=? i)%Z then nth_error a (Z.to_nat i)
  else if (- n <=? i)%Z then nth_error a (Z.to_nat (n + i))
       else None.

(** [a[i:j]] for [0 <= i <= j]: slices never raise. *)
Definition py_slice {A : Type} (a : list A) (i j : nat) : list A :=
  firstn (j - i) (skipn i a).

Definition Qsum (l : list Q) : Q := fold_right Qplus 0 l.

(** [np.mean] of a one-dimensional array that is not empty. *)
Definition np_mean (a : list Q) : Q := Qsum a / inject_Z (Z.of_nat (length a)).

(** [np.linspace(start, stop, num)] for [num] of at least 2: [num] evenly
    spaced points, both ends included. *)
Definition linspace (start stop : Q) (num : nat) : list Q :=
  let step := (stop - start) / inject_Z (Z.of_nat (num - 1)) in
  map (fun k => start + inject_Z (Z.of_nat k) * step) (seq 0 num).

(** The default of the [bin_edges] parameter of both functions. *)
Definition default_bin_edges : list Q := linspace 0 360 361.

(** A value that may be not finite (NaN or an infinity, [None]). *)
Definition fq : Type := option Q.

(** Division of arrays goes element by element; dividing by zero gives NaN
    or an infinity (with a warning, not an exception), and a value that is
    not finite stays so. *)
Definition np_divide (a b : fq) : fq :=
  match a, b with
  | Some x, Some y => if Qeq_bool y 0 then None else Some (x / y)
  | _, _ => None
  end.



(** [np.diff]. *)
Fixpoint np_diff (a : list Q) : list Q :=
  match a with
  | x :: (y :: _) as rest => (y - x) :: np_diff rest
  | _ => []
  end.

(** *** xhistogram.core.histogram along the binned axis *)

(** Modelled from the documentation of [xhistogram.core.histogram] (which
    follows [np.histogram]): [bins] is a monotonically increasing array of
    at least two edges, anything else is refused; bin [i] holds the samples
    [a] with [bins[i] <= a < bins[i+1]], and the last bin also holds
    [a = bins[-1]]; a sample outside the edges is dropped; without weights
    every sample counts for 1; the weights have the shape of the samples. *)
Definition Qlt_bool (x y : Q) : bool := negb (Qle_bool y x).

Fixpoint increasing (edges : list Q) : bool :=
  match edges with
  | x :: (y :: _) as rest => Qle_bool x y && increasing rest
  | _ => true
  end.

Definition nbins (edges : list Q) : nat := (length edges - 1)%nat.

Definition in_bin (edges : list Q) (i : nat) (a : Q) : bool :=
  match nth_error edges i, nth_error edges (S i) with
  | Some lo, Some hi =>
      Qle_bool lo a &&
      (Qlt_bool a hi || (Nat.eqb (S i) (nbins edges) && Qeq_bool a hi))
  | _, _ => false
  end.

Definition samples (angles : list Q) (weights : option (list Q))
  : option (list (Q * Q)) :=
  match weights with
  | None => Some (map (fun a => (a, 1)) angles)
  | Some w => if Nat.eqb (length angles) (length w)
              then Some (combine angles w) else None
  end.

(** The samples of bin [i], and the sum of their weights. *)
Definition bin_samples (edges : list Q) (smp : list (Q * Q)) (i : nat)
  : list (Q * Q) :=
  filter (fun s => in_bin edges i (fst s)) smp.

Definition bin_total (edges : list Q) (smp : list (Q * Q)) (i : nat) : Q :=
  Qsum (map snd (bin_samples edges smp i)).

Definition valid_bins (edges : list Q) : bool :=
  (2 <=? length edges)%nat && increasing edges.

Definition histogram (angles bins : list Q) (weights : option (list Q))
  : option (list Q) :=
  if valid_bins bins then
    match samples angles weights with
    | Some smp => Some (map (bin_total bins smp) (seq 0 (nbins bins)))
    | None => None
    end
  else None.

(** With [density=1] every bin is divided by its width and by the sum over
    the bins: [bin_counts / bin_areas / bin_counts.sum()]. *)
Definition histogram_density (angles bins : list Q) (weights : option (list Q))
  : option (list fq) :=
  match histogram angles bins weights with
  | Some h =>
      let total := Some (Qsum h) in
      Some (zip_with (fun c w => np_divide (np_divide (Some c) (Some w)) total)
                     h (np_diff bins))
  | None => None
  end.

(** *** make_angular_PDF *)

(** [bin_edges[1:] - (bin_edges[1] - bin_edges[0])/2]. *)
Definition pdf_bin_centers (bin_edges : list Q) : option (list Q) :=
  match py_index bin_edges 1, py_index bin_edges 0 with
  | Some e1, Some e0 =>
      Some (map (fun e => e - (e1 - e0) / 2)
                (py_slice bin_edges 1 (length bin_edges)))
  | _, _ => None
  end.

Definition make_angular_PDF (angles weight bin_edges : list Q)
  : option (list fq * list Q) :=
  match histogram_density angles bin_edges (Some weight) with
  | Some hist =>
      match pdf_bin_centers bin_edges with
      | Some bin_centers => Some (hist, bin_centers)
      | None => None
      end
  | None => None
  end.


(** The centre of bin [i] in the words of the specification of
    [make_angular_PDF]: the upper edge less half the spacing of the last two
    edges. *)
Definition center_from_last_width (bin_edges : list Q) (i : nat) : option Q :=
  match nth_error bin_edges (S i), py_index bin_edges (-1),
        py_index bin_edges (-2) with
  | Some e, Some l1, Some l2 => Some (e - (l1 - l2) / 2)
  | _, _, _ => None
  end.

(** *** The arithmetic of make_angular_average *)

(** [np.array([np.mean(bin_edges[i:i+2]) for i in range(bin_edges.size - 1)])]. *)
Definition average_bin_centers (bin_edges : list Q) : list Q :=
  map (fun i => np_mean (py_slice bin_edges i (i + 2)))
      (seq 0 (length bin_edges - 1)).

(** [a == 0] and the assignment [a[mask] = v], which needs a mask of the
    shape of [a] ([IndexError] otherwise). *)
Definition eq_zero (a : list Q) : list bool := map (fun c => Qeq_bool c 0) a.

Definition masked_assign (a : list Q) (mask : list bool) (v : Q)
  : option (list Q) :=
  if Nat.eqb (length a) (length mask)
  then Some (zip_with (fun x (m : bool) => if m then v else x) a mask)
  else None.

Definition divide_arrays (a b : list Q) : option (list fq) :=
  broadcast2 (fun x y => np_divide (Some x) (Some y)) a b.

(** *** Notions the properties are stated with *)

Fixpoint strictly_increasing (edges : list Q) : bool :=
  match edges with
  | x :: (y :: _) as rest => Qlt_bool x y && strictly_increasing rest
  | _ => true
  end.

(** A sample is in range when it lies between the first and the last edge,
    both included. *)
Definition in_range (edges : list Q) (a : Q) : bool :=
  match edges with
  | [] => false
  | lo :: _ => Qle_bool lo a && Qle_bool a (last edges lo)
  end.

(** The total weight of the samples in range. *)
Definition weight_in_range (angles weight edges : list Q) : Q :=
  Qsum (map snd (filter (fun s => in_range edges (fst s))
                        (combine angles weight))).

(** The number of samples in bin [i]. *)
Definition bin_count (edges angles : list Q) (i : nat) : nat :=
  length (filter (in_bin edges i) angles).

(** The sum of the weights of the samples in bin [i]. *)
Definition bin_weight (edges angles weight : list Q) (i : nat) : Q :=
  bin_total edges (combine angles weight) i.

(** The bins that hold the sample [a]. *)
Definition hits (edges : list Q) (a : Q) : list nat :=
  filter (fun i => in_bin edges i a) (seq 0 (nbins edges)).

End Binning.

(** ** make_angular_average and the arrays it writes *)

(** numpy arrays are objects: a name holds a reference, and [a[mask] = v]
    writes into the array the name refers to.  The store maps references to
    array contents; the function receives the references of its arguments,
    which may be one and the same object, and the reference of the default
    [bin_edges], created once when the module is loaded and shared by every
    call that leaves [bin_edges] out. *)
Module Store.
Import Broadcast Binning.

Abbreviation ref := positive.
Abbreviation store := (gmap positive (list Q)).

(** Computations that read and write the store and may raise. *)
Definition M (A : Type) : Type := store -> option (A * store).

Definition ret {A : Type} (a : A) : M A := fun s => Some (a, s).

Definition bind {A B : Type} (m : M A) (f : A -> M B) : M B :=
  fun s => match m s with
           | Some (a, s') => f a s'
           | None => None
           end.

Notation "'let!' x ':=' m 'in' k" := (bind m (fun x => k))
  (at level 10, x name, m at level 100, k at level 200).

(** A result of a library call that may raise. *)
Definition lift {A : Type} (o : option A) : M A :=
  fun s => match o with
           | Some a => Some (a, s)
           | None => None
           end.

Definition read (r : ref) : M (list Q) := fun s => lift (s !! r) s.

(** A new array object. *)
Definition alloc (a : list Q) : M ref :=
  fun s => let r := fresh (dom s) in Some (r, <[r := a]> s).

(** [target[source == 0] = v], in place. *)
Definition assign_where_zero (target source : ref) (v : Q) : M unit :=
  let! a := read target in
  let! c := read source in
  let! a' := lift (masked_assign a (eq_zero c) v) in
  fun s => Some (tt, <[target := a']> s).

(** [histogram(angles, bins=bin_edges, weights=weight)]: the library reads
    its arguments and returns the histogram as a new array. *)
Definition call_histogram (angles bins : ref) (weights : option ref) : M ref :=
  let! a := read angles in
  let! e := read bins in
  let! w := match weights with
            | Some r => (let! w := read r in ret (Some w))
            | None => ret None
            end in
  let! h := lift (histogram a e w) in
  alloc h.

Definition make_angular_average (angles weight bin_edges : ref)
  : M (list fq * list Q) :=
  let! hist := call_histogram angles bin_edges (Some weight) in
  let! counts := call_histogram angles bin_edges None in
  let! bin_centers := (let! e := read bin_edges in
                       ret (average_bin_centers e)) in
  let! _ := assign_where_zero hist counts 1 in
  let! _ := assign_where_zero counts counts 1 in
  let! h := read hist in
  let! c := read counts in
  let! average := lift (divide_arrays h c) in
  ret (average, bin_centers).

(** A call with or without the [bin_edges] argument. *)
Definition call_make_angular_average (default_edges : ref)
           (angles weight : ref) (bin_edges : option ref)
  : M (list fq * list Q) :=
  make_angular_average angles weight (default default_edges bin_edges).

(** *** A run *)

(** One sample of weight 5 at half a degree, the edges [0, 1, 3], and the
    default edges as a fourth array. *)
Definition example_store : store :=
  <[4%positive := default_bin_edges]>
    (<[3%positive := [0; 1; 3]]>
       (<[2%positive := [5]]> (<[1%positive := [1 # 2]]> ∅))).

End Store.

(** * Properties *)

(** ** Broadcasting *)

Module BroadcastProps.
Import Broadcast.

Lemma zip_with_length {A B C} (f : A -> B -> C) a b :
  length a = length b -> length (zip_with f a b) = length a.
Proof.
  revert b; induction a as [|x a IH]; intros [|y b]; simpl; try discriminate; auto.
Qed.

Lemma zip_with_nth {A B C} (f : A -> B -> C) a b i v :
  nth_error (zip_with f a b) i = Some v ->
  exists x y, nth_error a i = Some x /\ nth_error b i = Some y /\ v = f x y.
Proof.
  revert b i; induction a as [|x a IH]; intros [|y b] [|i]; simpl;
    try discriminate.
  - intros [= <-]. eauto.
  - intros H. apply IH in H. exact H.
Qed.

Lemma broadcast2_nth {A B C} (f : A -> B -> C) a b out i v :
  broadcast2 f a b = Some out ->
  nth_error out i = Some v ->
  exists x y, bget a i = Some x /\ bget b i = Some y /\ v = f x y.
Proof.
  unfold broadcast2.
  destruct (Nat.eqb (length a) (length b)) eqn:E.
  - intros [= <-] H. apply Nat.eqb_eq in E.
    destruct (zip_with_nth _ _ _ _ _ H) as (x & y & Hx & Hy & ->).
    exists x, y. repeat split; auto.
    + destruct a as [|x0 [|x1 a]]; simpl in *; auto.
      destruct i; simpl in *; auto.
      destruct b as [|y0 [|? ?]]; simpl in *; try discriminate.
      destruct i; discriminate.
    + destruct b as [|y0 [|y1 b]]; simpl in *; auto.
      destruct i; simpl in *; auto.
      destruct a as [|x0 [|? ?]]; simpl in *; try discriminate.
      destruct i; discriminate.
  - destruct a as [|x0 [|x1 a]].
    + destruct b as [|y0 [|y1 b]]; try discriminate.
      intros [= <-] H. destruct i; discriminate.
    + intros [= <-] H.
      destruct (nth_error b i) as [y|] eqn:Hy.
      * rewrite (map_nth_error _ _ _ Hy) in H. injection H as <-.
        exists x0, y. repeat split; auto.
        destruct b as [|y0 [|y1 b]]; simpl in *; auto.
        discriminate.
      * apply nth_error_None in Hy.
        assert (nth_error (map (f x0) b) i = None) as Hn
            by (apply nth_error_None; rewrite length_map; exact Hy).
        congruence.
    + destruct b as [|y0 [|y1 b]]; try discriminate.
      remember (x0 :: x1 :: a) as l eqn:Hl.
      intros Heq H.
      assert (out = map (fun x => f x y0) l) as -> by congruence.
      assert (bget l i = nth_error l i) as Hb by (subst l; reflexivity).
      rewrite Hb.
      destruct (nth_error l i) as [x|] eqn:Hx.
      * rewrite (map_nth_error _ _ _ Hx) in H. injection H as <-.
        exists x, y0. repeat split; auto.
      * apply nth_error_None in Hx.
        assert (nth_error (map (fun x => f x y0) l) i = None) as Hn
            by (apply nth_error_None; rewrite length_map; exact Hx).
        congruence.
Qed.

Lemma broadcast2_same_length {A B C} (f : A -> B -> C) a b :
  length a = length b -> broadcast2 f a b = Some (zip_with f a b).
Proof.
  intros H. unfold broadcast2. apply Nat.eqb_eq in H. rewrite H. reflexivity.
Qed.

End BroadcastProps.

(** ** The element-wise functions in exact arithmetic *)

Module ExactProps.
Import Broadcast BroadcastProps Exact.
Local Open Scope R_scope.

(** *** The two-argument arctangent *)

Lemma PI_pos : 0 < PI.
Proof. exact PI_RGT_0. Qed.

Lemma arctan2_range (y x : R) : - PI < arctan2 y x <= PI.
Proof.
  pose proof PI_pos as HP.
  unfold arctan2.
  destruct (Rlt_dec 0 x) as [Hx|Hx].
  - pose proof (atan_bound (y / x)). lra.
  - destruct (Rlt_dec x 0) as [Hx'|Hx'].
    + destruct (Rle_dec 0 y) as [Hy|Hy].
      * assert (y / x <= 0) as Hq.
        { pose proof (Rinv_lt_0_compat x Hx') as Hi. unfold Rdiv. nra. }
        pose proof (atan_bound (y / x)) as Hb.
        assert (atan (y / x) <= 0) as Ha.
        { destruct Hq as [Hq|Hq].
          - apply atan_increasing in Hq. rewrite atan_0 in Hq. lra.
          - rewrite Hq, atan_0. lra. }
        lra.
      * assert (0 < y / x) as Hq.
        { pose proof (Rinv_lt_0_compat x Hx') as Hi. unfold Rdiv. nra. }
        pose proof (atan_bound (y / x)) as Hb.
        apply atan_increasing in Hq. rewrite atan_0 in Hq. lra.
    + destruct (Rlt_dec 0 y); [lra|].
      destruct (Rlt_dec y 0); lra.
Qed.

(** The radius and the arctangent give back the point: the defining property
    of the angle of [(x, y)]. *)
Lemma hypot_scaled (x y s : R) :
  0 < s -> s * s = x * x ->
  sqrt (x ^ 2 + y ^ 2) = s * sqrt (1 + (y / x)²).
Proof.
  intros Hs Hsq.
  assert (x <> 0) as Hx by (intros ->; nra).
  assert (0 <= 1 + (y / x)²) as Hpos by (unfold Rsqr; nra).
  apply sqrt_lem_1.
  - nra.
  - apply Rmult_le_pos; [lra | apply sqrt_pos].
  - replace (s * sqrt (1 + (y / x)²) * (s * sqrt (1 + (y / x)²)))
      with (s * s * (sqrt (1 + (y / x)²) * sqrt (1 + (y / x)²))) by ring.
    rewrite sqrt_sqrt by exact Hpos. rewrite Hsq. unfold Rsqr. field. exact Hx.
Qed.

Lemma sqrt_1_plus_sqr_pos (t : R) : 0 < sqrt (1 + t²).
Proof. apply sqrt_lt_R0. unfold Rsqr. nra. Qed.

Lemma polar_of_arctan2 (x y : R) :
  sqrt (x ^ 2 + y ^ 2) * cos (arctan2 y x) = x /\
  sqrt (x ^ 2 + y ^ 2) * sin (arctan2 y x) = y.
Proof.
  unfold arctan2.
  destruct (Rlt_dec 0 x) as [Hx|Hx].
  - rewrite (hypot_scaled x y x) by (auto; lra).
    rewrite cos_atan, sin_atan.
    pose proof (sqrt_1_plus_sqr_pos (y / x)) as Hs.
    split; field; lra.
  - destruct (Rlt_dec x 0) as [Hx'|Hx'].
    + rewrite (hypot_scaled x y (- x)) by (try lra; ring).
      pose proof (sqrt_1_plus_sqr_pos (y / x)) as Hs.
      destruct (Rle_dec 0 y) as [Hy|Hy].
      * rewrite neg_cos, neg_sin, cos_atan, sin_atan. split; field; lra.
      * replace (atan (y / x) - PI) with (- (- atan (y / x) + PI)) by ring.
        rewrite cos_neg, sin_neg, neg_cos, neg_sin, cos_neg, sin_neg,
          cos_atan, sin_atan.
        split; field; lra.
    + assert (x = 0) as -> by lra.
      replace (0 ^ 2 + y ^ 2) with (y ^ 2) by ring.
      destruct (Rlt_dec 0 y) as [Hy|Hy].
      * rewrite sqrt_pow2 by lra. rewrite cos_PI2, sin_PI2. split; ring.
      * destruct (Rlt_dec y 0) as [Hy'|Hy'].
        -- replace (y ^ 2) with ((- y) ^ 2) by ring.
           rewrite sqrt_pow2 by lra.
           rewrite cos_neg, sin_neg, cos_PI2, sin_PI2. split; ring.
        -- assert (y = 0) as -> by lra.
           replace (0 ^ 2) with 0 by ring. rewrite sqrt_0. split; ring.
Qed.

(** *** Degrees and radians *)

Lemma PI_neq0' : PI <> 0.
Proof. pose proof PI_pos. lra. Qed.

Lemma radians_degrees (x : R) : radians (degrees x) = x.
Proof. unfold radians, degrees. field. exact PI_neq0'. Qed.

Lemma degrees_radians (x : R) : degrees (radians x) = x.
Proof. unfold radians, degrees. field. exact PI_neq0'. Qed.

Lemma degrees_PI : degrees PI = 180.
Proof. unfold degrees. field. exact PI_neq0'. Qed.

Lemma degrees_le (a b : R) : a <= b -> degrees a <= degrees b.
Proof.
  intros H. unfold degrees.
  apply Rmult_le_compat_r; [|exact H].
  apply Rlt_le, Rdiv_lt_0_compat; [lra | exact PI_pos].
Qed.

Lemma degrees_lt (a b : R) : a < b -> degrees a < degrees b.
Proof.
  intros H. unfold degrees.
  apply Rmult_lt_compat_r; [|exact H].
  apply Rdiv_lt_0_compat; [lra | exact PI_pos].
Qed.

Lemma arctan2d_range (x1 x2 : R) : -180 < arctan2d x1 x2 <= 180.
Proof.
  destruct (arctan2_range x1 x2) as [Hlo Hhi].
  assert (degrees (- PI) = -180) as Hm
      by (unfold degrees; field; exact PI_neq0').
  unfold arctan2d. split.
  - rewrite <- Hm. apply degrees_lt, Hlo.
  - rewrite <- degrees_PI. apply degrees_le, Hhi.
Qed.

(** *** The remainder *)

Lemma floor_bounds (x : R) : IZR (floor x) <= x < IZR (floor x) + 1.
Proof. unfold floor. destruct (base_Int_part x). lra. Qed.

Lemma np_mod_range (a b : R) : 0 < b -> 0 <= np_mod a b < b.
Proof.
  intros Hb. unfold np_mod.
  destruct (floor_bounds (a / b)) as [Hlo Hhi].
  assert (a = a / b * b) as Ha by (field; lra).
  split; nra.
Qed.

Lemma np_mod_small (a b : R) : 0 <= a < b -> np_mod a b = a.
Proof.
  intros [H0 Hb]. unfold np_mod.
  assert (floor (a / b) = 0%Z) as ->.
  { symmetry. apply Int_part_spec. simpl.
    assert (0 <= a / b < 1) as [? ?].
    { split.
      - apply Rmult_le_pos; [lra|]. apply Rlt_le, Rinv_0_lt_compat. lra.
      - apply (Rmult_lt_reg_r b); [lra|]. unfold Rdiv.
        rewrite Rmult_assoc, Rinv_l by lra. lra. }
    lra. }
  simpl. ring.
Qed.

(** Sine and cosine have period [2 * pi], in both directions. *)
Lemma cos_period_Z (x : R) (k : Z) : cos (x + 2 * IZR k * PI) = cos x.
Proof.
  destruct k as [|p|p].
  - simpl. f_equal. ring.
  - rewrite <- (cos_period x (Pos.to_nat p)). rewrite INR_IZR_INZ.
    rewrite positive_nat_Z. reflexivity.
  - rewrite <- (cos_period (x + 2 * IZR (Z.neg p) * PI) (Pos.to_nat p)).
    rewrite INR_IZR_INZ, positive_nat_Z. f_equal.
    change (Z.neg p) with (- Z.pos p)%Z. rewrite opp_IZR. ring.
Qed.

Lemma sin_period_Z (x : R) (k : Z) : sin (x + 2 * IZR k * PI) = sin x.
Proof.
  destruct k as [|p|p].
  - simpl. f_equal. ring.
  - rewrite <- (sin_period x (Pos.to_nat p)). rewrite INR_IZR_INZ.
    rewrite positive_nat_Z. reflexivity.
  - rewrite <- (sin_period (x + 2 * IZR (Z.neg p) * PI) (Pos.to_nat p)).
    rewrite INR_IZR_INZ, positive_nat_Z. f_equal.
    change (Z.neg p) with (- Z.pos p)%Z. rewrite opp_IZR. ring.
Qed.




Lemma arctan2_0_neg1 : arctan2 0 (-1) = PI.
Proof.
  unfold arctan2.
  destruct (Rlt_dec 0 (-1)) as [H|_]; [lra|].
  destruct (Rlt_dec (-1) 0) as [_|H]; [|lra].
  destruct (Rle_dec 0 0) as [_|H]; [|lra].
  replace (0 / -1) with 0 by field. rewrite atan_0. ring.
Qed.

Lemma arctan2_0_pos (x : R) : 0 < x -> arctan2 0 x = 0.
Proof.
  intros Hx. unfold arctan2.
  destruct (Rlt_dec 0 x) as [_|H]; [|lra].
  replace (0 / x) with 0 by (field; lra). apply atan_0.
Qed.

Lemma arctan2_0_0 : arctan2 0 0 = 0.
Proof.
  unfold arctan2.
  destruct (Rlt_dec 0 0) as [H|_]; [lra|]. reflexivity.
Qed.

Lemma degrees_0 : degrees 0 = 0.
Proof. unfold degrees. ring. Qed.

Lemma broadcast2_length {A B C} (f : A -> B -> C) a b out :
  broadcast2 f a b = Some out ->
  length out = if Nat.eqb (length a) 1 then length b else length a.
Proof.
  unfold broadcast2.
  destruct (Nat.eqb (length a) (length b)) eqn:E.
  - apply Nat.eqb_eq in E. intros [= <-].
    rewrite zip_with_length by exact E.
    destruct (Nat.eqb (length a) 1) eqn:E1; [|reflexivity].
    apply Nat.eqb_eq in E1. congruence.
  - destruct a as [|x0 [|x1 a]].
    + destruct b as [|y0 [|y1 b]]; try discriminate.
      intros [= <-]. reflexivity.
    + intros [= <-]. simpl. apply length_map.
    + destruct b as [|y0 [|y1 b]]; try discriminate.
      intros [= <-]. simpl. rewrite length_map. reflexivity.
Qed.

(** *** arctan2d *)

(** C7.  On broadcastable arrays [arctan2d] has the broadcast shape and is,
    element by element, the two-argument arctangent in degrees: the value
    lies in [[-180, 180]] and,
    read in radians, it is the angle of the point [(x2, x1)] (whose cosine
    and sine times the radius give back [x2] and [x1], in every quadrant).
    At the boundaries [arctan2d(0, -1) = 180] and [arctan2d(0, 1) = 0]; in
    binary64 too the degrees of the double nearest to pi, which is the
    arctangent of [(0, -1)], are exactly 180, and those of 0 are 0. *)
Theorem arctan2d_quadrant_aware (x1 x2 out : list R) :
  arctan2d_array x1 x2 = Some out ->
  length out = (if Nat.eqb (length x1) 1 then length x2 else length x1) /\
  (forall i v, nth_error out i = Some v ->
     exists a b,
       bget x1 i = Some a /\ bget x2 i = Some b /\
       v = degrees (arctan2 a b) /\
       -180 <= v <= 180 /\
       sqrt (b ^ 2 + a ^ 2) * cos (radians v) = b /\
       sqrt (b ^ 2 + a ^ 2) * sin (radians v) = a) /\
  arctan2d 0 (-1) = 180 /\
  arctan2d 0 1 = 0 /\
  B64.degrees B64.npy_pi = B64.f180 /\
  B64.degrees B64.zero = B64.zero.
Proof.
  intros Hout. split; [|split; [|split; [|split; [|split]]]].
  - apply (broadcast2_length _ _ _ _ Hout).
  - intros i v Hv.
    destruct (broadcast2_nth _ _ _ _ _ _ Hout Hv) as (a & b & Ha & Hb & ->).
    exists a, b. repeat split; auto.
    + pose proof (arctan2d_range a b). lra.
    + apply (arctan2d_range a b).
    + unfold arctan2d. rewrite radians_degrees. apply polar_of_arctan2.
    + unfold arctan2d. rewrite radians_degrees. apply polar_of_arctan2.
  - unfold arctan2d. rewrite arctan2_0_neg1. apply degrees_PI.
  - unfold arctan2d. rewrite arctan2_0_pos by lra. apply degrees_0.
  - vm_compute. reflexivity.
  - vm_compute. reflexivity.
Qed.

Lemma arctan2d_quadrant_aware_witness :
  arctan2d_array [0; 0] [-1] = Some [arctan2d 0 (-1); arctan2d 0 (-1)] /\
  arctan2d 0 (-1) = 180.
Proof.
  split; [reflexivity|].
  apply (arctan2d_quadrant_aware [0; 0] [-1] [arctan2d 0 (-1); arctan2d 0 (-1)]).
  reflexivity.
Defined.

(** *** cartesian_to_polar in exact arithmetic *)

Lemma cartesian_to_polar_exact (x y : R) :
  fst (cartesian_to_polar x y) = sqrt (x ^ 2 + y ^ 2) /\
  snd (cartesian_to_polar x y) = np_mod (arctan2d y x) 360 /\
  (exists k : Z, snd (cartesian_to_polar x y) = arctan2d y x - IZR k * 360) /\
  0 <= snd (cartesian_to_polar x y) < 360.
Proof.
  unfold cartesian_to_polar; simpl.
  repeat split; try reflexivity.
  - exists (floor (arctan2d y x / 360)). reflexivity.
  - apply np_mod_range; lra.
  - apply np_mod_range; lra.
Qed.


(** At the origin the radius is [sqrt 0] and the two-argument arctangent of
    [(0, 0)] is 0. *)
Lemma cartesian_to_polar_origin_exact : cartesian_to_polar 0 0 = (0, 0).
Proof.
  unfold cartesian_to_polar, arctan2d.
  rewrite arctan2_0_0, degrees_0.
  rewrite np_mod_small by lra.
  replace (0 ^ 2 + 0 ^ 2) with 0 by ring.
  rewrite sqrt_0. reflexivity.
Qed.

(** *** vector_average *)

Lemma vector_term_polar (n a : R) :
  Cmul (Cof_real n) (Cexp (Cmul Cj (Cof_real (radians a))))
  = (n * cos (radians a), n * sin (radians a)).
Proof.
  unfold Cmul, Cexp, Cof_real, Cj, Cre, Cim; simpl.
  replace (0 * radians a - 1 * 0) with 0 by ring.
  replace (0 * 0 + 1 * radians a) with (radians a) by ring.
  rewrite exp_0. f_equal; ring.
Qed.

Lemma vector_term_pair_up (n a : fl) :
  vector_term n a = option_map polar_term (pair_up n a).
Proof.
  destruct n as [n|], a as [a|]; simpl; try reflexivity.
  rewrite vector_term_polar. reflexivity.
Qed.

Lemma zip_with_ext {A B X : Type} (f g : A -> B -> X) a b :
  (forall x y, f x y = g x y) -> zip_with f a b = zip_with g a b.
Proof.
  intros H. revert b; induction a as [|x a IH]; intros [|y b]; simpl; auto.
  rewrite H, IH. reflexivity.
Qed.

Lemma zip_with_map {A B X Y : Type} (f : A -> B -> X) (h : X -> Y) a b :
  zip_with (fun x y => h (f x y)) a b = map h (zip_with f a b).
Proof.
  revert b; induction a as [|x a IH]; intros [|y b]; simpl; auto.
  rewrite IH. reflexivity.
Qed.

Lemma broadcast2_map {A B X Y : Type} (f : A -> B -> X) (h : X -> Y) a b :
  broadcast2 (fun x y => h (f x y)) a b = option_map (map h) (broadcast2 f a b).
Proof.
  unfold broadcast2.
  destruct (Nat.eqb (length a) (length b)).
  - simpl. rewrite zip_with_map. reflexivity.
  - destruct a as [|x0 [|x1 a]].
    + destruct b as [|y0 [|y1 b]]; reflexivity.
    + simpl. rewrite map_map. reflexivity.
    + destruct b as [|y0 [|y1 b]]; try reflexivity.
      simpl. rewrite map_map. reflexivity.
Qed.

Lemma broadcast2_ext {A B X : Type} (f g : A -> B -> X) a b :
  (forall x y, f x y = g x y) -> broadcast2 f a b = broadcast2 g a b.
Proof.
  intros H. unfold broadcast2.
  rewrite (zip_with_ext f g a b H).
  destruct (Nat.eqb (length a) (length b)); [reflexivity|].
  destruct a as [|x0 [|x1 a]].
  - reflexivity.
  - f_equal. apply map_ext. intros y. apply H.
  - destruct b as [|y0 [|y1 b]]; try reflexivity.
    f_equal. apply map_ext. intros x. apply H.
Qed.

Lemma not_nan_map {A B : Type} (h : A -> B) (l : list (option A)) :
  not_nan (map (option_map h) l) = map h (not_nan l).
Proof.
  induction l as [|[v|] l IH]; simpl; auto. rewrite IH. reflexivity.
Qed.

Lemma Csum_polar (l : list (R * R)) :
  Csum (map polar_term l)
  = (Rsum (map (fun p => snd p * cos (radians (fst p))) l),
     Rsum (map (fun p => snd p * sin (radians (fst p))) l)).
Proof.
  induction l as [|p l IH]; simpl; [reflexivity|].
  rewrite IH. reflexivity.
Qed.

Lemma vector_average_refines (angles norm : list fl) :
  vector_average angles norm = vector_average_spec angles norm.
Proof.
  unfold vector_average, vector_average_spec.
  rewrite (broadcast2_ext vector_term
             (fun n a => option_map polar_term (pair_up n a)))
    by apply vector_term_pair_up.
  rewrite broadcast2_map.
  destruct (broadcast2 pair_up norm angles) as [pairs|]; simpl; [|reflexivity].
  unfold nanmean. rewrite not_nan_map.
  destruct (not_nan pairs) as [|p valid] eqn:E; [reflexivity|].
  remember (p :: valid) as l eqn:Hl.
  assert (map polar_term l <> []) as Hne by (subst l; discriminate).
  destruct (map polar_term l) as [|z zs] eqn:Em; [congruence|].
  rewrite <- Em, Csum_polar, length_map.
  subst l. reflexivity.
Qed.

Lemma cos_radians_359 : cos (radians 359) = cos (radians 1).
Proof.
  replace (radians 359) with (- radians 1 + 2 * IZR 1 * PI)
    by (unfold radians; field).
  rewrite cos_period_Z. apply cos_neg.
Qed.

Lemma sin_radians_359 : sin (radians 359) = - sin (radians 1).
Proof.
  replace (radians 359) with (- radians 1 + 2 * IZR 1 * PI)
    by (unfold radians; field).
  rewrite sin_period_Z. apply sin_neg.
Qed.

Lemma cos_radians_1_pos : 0 < cos (radians 1).
Proof.
  pose proof PI_pos as HP.
  apply cos_gt_0; unfold radians; lra.
Qed.

Lemma vector_average_359_1 :
  vector_average [Some 359; Some 1] [Some 1; Some 1]
  = Some (Some 0, Some (cosd 1)).
Proof.
  rewrite vector_average_refines.
  unfold vector_average_spec, mean_resultant; simpl.
  rewrite cos_radians_359, sin_radians_359.
  pose proof cos_radians_1_pos as Hc.
  replace ((1 * cos (radians 1) + (1 * cos (radians 1) + 0)) / (1 + 1))
    with (cos (radians 1)) by field.
  replace ((1 * - sin (radians 1) + (1 * sin (radians 1) + 0)) / (1 + 1))
    with 0 by field.
  rewrite arctan2_0_pos by exact Hc. rewrite degrees_0.
  replace (cos (radians 1) * (cos (radians 1) * 1) + 0 * (0 * 1))
    with (cos (radians 1) * cos (radians 1)) by ring.
  rewrite sqrt_square by lra. reflexivity.
Qed.

Lemma vector_average_angle_range (angles norm : list fl) (t : R) (mag : fl) :
  vector_average angles norm = Some (Some t, mag) -> -180 <= t <= 180.
Proof.
  unfold vector_average.
  destruct (broadcast2 vector_term norm angles) as [terms|]; [|discriminate].
  destruct (nanmean terms) as [z|]; simpl; [|discriminate].
  intros [= <- _]. unfold Cangle.
  pose proof (arctan2d_range (Cim z) (Cre z)) as H. unfold arctan2d in H. lra.
Qed.

(** C3.  Along the averaged axis [vector_average] is the NaN-skipping mean
    of [norm * exp(i * radians(angles))] decomposed into its argument in
    degrees and its magnitude; the angle it returns lies in [[-180, 180]];
    and [vector_average([359, 1], [1, 1])] has angle 0, not 180 (with norm
    [cosd 1]). *)
Theorem vector_average_circular_mean (angles norm : list fl) :
  vector_average angles norm = vector_average_spec angles norm /\
  (forall t mag, vector_average angles norm = Some (Some t, mag) ->
                 -180 <= t <= 180) /\
  vector_average [Some 359; Some 1] [Some 1; Some 1]
  = Some (Some 0, Some (cosd 1)) /\
  fst (mean_resultant [(359, 1); (1, 1)]) = cosd 1 /\
  snd (mean_resultant [(359, 1); (1, 1)]) = 0.
Proof.
  split; [apply vector_average_refines|].
  split; [intros t mag; apply vector_average_angle_range|].
  split; [apply vector_average_359_1|].
  unfold mean_resultant, cosd; simpl.
  rewrite cos_radians_359, sin_radians_359. split; field.
Qed.

Lemma vector_average_circular_mean_witness :
  vector_average [Some 359; Some 1] [Some 1; Some 1]
  = Some (Some 0, Some (cosd 1)) /\ -180 <= 0 <= 180.
Proof.
  pose proof (vector_average_circular_mean
                [Some 359; Some 1] [Some 1; Some 1]) as (_ & Hr & He & _).
  split; [exact He|]. exact (Hr 0 (Some (cosd 1)) He).
Defined.

(** *** The arctangent near zero *)

(** The arctangent near zero lies just below its argument. *)
Lemma atan_bounds (t : R) : 0 < t -> t - t ^ 3 < atan t < t.
Proof.
  intros Ht.
  destruct (MVT_cor2 atan (fun x => / (1 + x ^ 2)) 0 t Ht) as (c & Hc & Hc0).
  { intros c _. apply derivable_pt_lim_atan. }
  rewrite atan_0 in Hc.
  assert (0 < 1 + c ^ 2) as Hpos by nra.
  pose proof (Rinv_0_lt_compat _ Hpos) as Hd.
  pose proof (Rinv_r (1 + c ^ 2) ltac:(lra)) as Hone.
  set (d := / (1 + c ^ 2)) in *.
  assert (atan t = d * t) as -> by lra.
  assert (0 < c ^ 2) as Hc2 by nra.
  assert (0 < d * c ^ 2) as Hdc by (apply Rmult_lt_0_compat; assumption).
  assert (d = 1 - d * c ^ 2) as Hd1 by lra.
  assert (c ^ 2 < t ^ 2) as Hct by nra.
  assert (d * c ^ 2 < t ^ 2) as Hdt by nra.
  split.
  - assert (0 < t * (t ^ 2 - d * c ^ 2)) as Hp
        by (apply Rmult_lt_0_compat; lra).
    nra.
  - assert (0 < t * (d * c ^ 2)) as Hp by (apply Rmult_lt_0_compat; lra).
    nra.
Qed.

End ExactProps.

(** ** The remainder in binary64 *)

Module B64Props.
Import B64.
Local Open Scope Z_scope.

(** *** The constants *)

Lemma f360_value : f360 = S754_finite false 6333186975989760 (-44).
Proof. vm_compute. reflexivity. Qed.

(** The factor of [np.degrees] is the double [57.29577951308232], and the
    double nearest to pi has exactly 180 degrees. *)
Lemma rad2deg_value : rad2deg = S754_finite false 8063664102031864 (-47).
Proof. vm_compute. reflexivity. Qed.

Lemma degrees_npy_pi : degrees npy_pi = f180.
Proof. vm_compute. reflexivity. Qed.

(** The remainder of a tiny negative angle is 360 itself. *)
Lemma remainder_tiny_negative :
  remainder (degrees tiny_negative) f360 = f360.
Proof. vm_compute. reflexivity. Qed.

(** *** Rounding stays below 360 *)

(** The number of binary digits of a positive number. *)
Lemma digits2_pos_lower (p : positive) :
  2 ^ (Z.pos (digits2_pos p) - 1) <= Z.pos p.
Proof.
  induction p as [p IH|p IH|]; cbn [digits2_pos].
  - rewrite Pos2Z.inj_succ.
    replace (Z.succ (Z.pos (digits2_pos p)) - 1)
      with (Z.succ (Z.pos (digits2_pos p) - 1)) by lia.
    rewrite Z.pow_succ_r by lia. lia.
  - rewrite Pos2Z.inj_succ.
    replace (Z.succ (Z.pos (digits2_pos p)) - 1)
      with (Z.succ (Z.pos (digits2_pos p) - 1)) by lia.
    rewrite Z.pow_succ_r by lia. lia.
  - reflexivity.
Qed.

(** A value below [2^9] has its digits end at most at exponent 9. *)
Lemma digits_below_512 (m : positive) (e : Z) :
  e <= 3 -> Z.pos m <= 45 * 2 ^ (3 - e) ->
  Z.pos (digits2_pos m) + e <= 9.
Proof.
  intros He Hm.
  pose proof (digits2_pos_lower m) as Hd.
  assert (45 * 2 ^ (3 - e) < 2 ^ (9 - e)) as Hlt.
  { replace (9 - e) with (6 + (3 - e)) by lia.
    rewrite Z.pow_add_r by lia.
    assert (0 < 2 ^ (3 - e)) by (apply Z.pow_pos_nonneg; lia).
    change (2 ^ 6) with 64. lia. }
  assert (2 ^ (Z.pos (digits2_pos m) - 1) < 2 ^ (9 - e)) as Hpow by lia.
  apply Z.pow_lt_mono_r_iff in Hpow; lia.
Qed.

Lemma fexp_below (d e : Z) : d + e <= 9 -> fexp prec emax (d + e) <= -44.
Proof. unfold fexp, SpecFloat.emin, prec, emax. lia. Qed.

(** Shifting left to a smaller exponent keeps the value. *)
Lemma iter_xO_pow (m d : positive) :
  Z.pos (Pos.iter xO m d) = Z.pos m * 2 ^ Z.pos d.
Proof.
  induction d as [|d IH] using Pos.peano_ind.
  - cbn [Pos.iter]. rewrite Pos2Z.inj_xO, Z.pow_1_r. lia.
  - rewrite Pos.iter_succ, Pos2Z.inj_xO, IH, Pos2Z.inj_succ.
    rewrite Z.pow_succ_r by lia. ring.
Qed.

Lemma shl_align_value (mx : positive) (ex ex' : Z) :
  let '(mz, ez) := shl_align mx ex ex' in
  ez = Z.min ex ex' /\ Z.pos mz = Z.pos mx * 2 ^ (ex - ez).
Proof.
  unfold shl_align.
  destruct (ex' - ex) as [|d|d] eqn:E.
  - split; [lia|]. replace (ex - ex) with 0 by lia. simpl. lia.
  - split; [lia|]. replace (ex - ex) with 0 by lia. simpl. lia.
  - split; [lia|]. rewrite iter_xO_pow. f_equal. f_equal. lia.
Qed.

(** Shifting right divides by a power of two. *)
Lemma shr_1_m (r : shr_record) :
  0 <= shr_m r -> shr_m (shr_1 r) = shr_m r / 2 /\ 0 <= shr_m (shr_1 r).
Proof.
  destruct r as [m b s]. cbn [shr_m shr_1]. intros Hm.
  destruct m as [|[p|p|]|p]; cbn [shr_m]; try lia.
  - split; [reflexivity|lia].
  - split; [|lia].
    apply (Z.div_unique (Z.pos p~1) 2 (Z.pos p) 1); lia.
  - split; [|lia].
    apply (Z.div_unique (Z.pos p~0) 2 (Z.pos p) 0); lia.
  - split; [reflexivity|lia].
Qed.

Lemma iter_shr_1_m (p : positive) (r : shr_record) :
  0 <= shr_m r ->
  shr_m (iter_pos shr_1 p r) = shr_m r / 2 ^ Z.pos p /\
  0 <= shr_m (iter_pos shr_1 p r).
Proof.
  revert r. induction p as [p IH|p IH|]; intros r Hr; cbn [iter_pos].
  - destruct (shr_1_m r Hr) as [E1 P1].
    destruct (IH _ P1) as [E2 P2]. destruct (IH _ P2) as [E3 P3].
    split; [|exact P3].
    rewrite E3, E2, E1.
    rewrite !Z.div_div by (try apply Z.pow_pos_nonneg; lia).
    f_equal. rewrite (Pos2Z.inj_xI p).
    replace (2 * Z.pos p + 1) with (1 + Z.pos p + Z.pos p) by lia.
    rewrite (Z.pow_add_r 2 (1 + Z.pos p) (Z.pos p)); [|lia|lia].
    rewrite (Z.pow_add_r 2 1 (Z.pos p)); [|lia|lia].
    rewrite Z.pow_1_r. ring.
  - destruct (IH _ Hr) as [E2 P2]. destruct (IH _ P2) as [E3 P3].
    split; [|exact P3].
    rewrite E3, E2.
    rewrite !Z.div_div by (try apply Z.pow_pos_nonneg; lia).
    f_equal. rewrite (Pos2Z.inj_xO p).
    replace (2 * Z.pos p) with (Z.pos p + Z.pos p) by lia.
    rewrite (Z.pow_add_r 2 (Z.pos p) (Z.pos p)); [|lia|lia]. ring.
  - destruct (shr_1_m r Hr) as [E1 P1]. split; [|exact P1].
    rewrite E1. reflexivity.
Qed.

Lemma shr_fexp_exact (m e : Z) :
  0 <= m ->
  let k := Z.max (fexp prec emax (Zdigits2 m + e) - e) 0 in
  let '(r, e') := shr_fexp prec emax m e loc_Exact in
  e' = e + k /\ shr_m r = m / 2 ^ k /\ 0 <= shr_m r.
Proof.
  intros Hm. unfold shr_fexp, shr. cbn [shr_record_of_loc].
  destruct (fexp prec emax (Zdigits2 m + e) - e) as [|p|p] eqn:E; cbn [shr_m].
  - cbn. rewrite Z.div_1_r. lia.
  - rewrite Z.max_l by lia.
    destruct (iter_shr_1_m p {| shr_m := m; shr_r := false; shr_s := false |})
      as [E1 P1]; [exact Hm|].
    cbn [shr_m] in E1. auto.
  - rewrite Z.max_r by lia. cbn. rewrite Z.div_1_r. lia.
Qed.

Lemma round_nearest_even_bounds (m : Z) (l : location) :
  m <= round_nearest_even m l <= m + 1.
Proof.
  unfold round_nearest_even.
  destruct l as [|[| |]]; try lia.
  destruct (Z.even m); lia.
Qed.

Lemma pow2_split (a b : Z) :
  0 <= a -> 0 <= b -> 2 ^ (a + b) = 2 ^ a * 2 ^ b.
Proof. intros. apply Z.pow_add_r; assumption. Qed.

Lemma pow2_pos (a : Z) : 0 <= a -> 0 < 2 ^ a.
Proof. intros. apply Z.pow_pos_nonneg; lia. Qed.

Lemma binary_round_aux_below (s : bool) (mz : positive) (ez : Z) :
  ez <= 3 -> Z.pos mz < 45 * 2 ^ (3 - ez) ->
  bounded_360 s (binary_round_aux prec emax s (Z.pos mz) ez loc_Exact).
Proof.
  intros Hez Hmz. unfold binary_round_aux.
  pose proof (shr_fexp_exact (Z.pos mz) ez ltac:(lia)) as H1.
  destruct (shr_fexp prec emax (Z.pos mz) ez loc_Exact) as [r1 e1].
  cbv zeta in H1. destruct H1 as (He1 & Hm1 & Hp1).
  cbn [Zdigits2] in He1, Hm1.
  pose proof (fexp_below _ _ (digits_below_512 mz ez Hez ltac:(lia))) as Hf1.
  set (k1 := Z.max (fexp prec emax (Z.pos (digits2_pos mz) + ez) - ez) 0) in *.
  assert (0 <= k1) as Hk1 by lia.
  assert (e1 <= 3) as He1' by lia.
  assert (shr_m r1 < 45 * 2 ^ (3 - e1)) as Hr1.
  { rewrite Hm1. apply Z.div_lt_upper_bound; [apply pow2_pos, Hk1|].
    replace (3 - ez) with (k1 + (3 - e1)) in Hmz by lia.
    rewrite pow2_split in Hmz by lia. lia. }
  pose proof (round_nearest_even_bounds (shr_m r1) (loc_of_shr_record r1)) as Hm2.
  set (m2 := round_nearest_even (shr_m r1) (loc_of_shr_record r1)) in *.
  pose proof (shr_fexp_exact m2 e1 ltac:(lia)) as H2.
  destruct (shr_fexp prec emax m2 e1 loc_Exact) as [r3 e3].
  cbv zeta in H2. destruct H2 as (He3 & Hm3 & Hp3).
  assert (fexp prec emax (Zdigits2 m2 + e1) <= 3) as Hf2.
  { destruct m2 as [|q|q] eqn:Eq; cbn [Zdigits2].
    - unfold fexp, SpecFloat.emin, prec, emax. lia.
    - pose proof (fexp_below _ _ (digits_below_512 q e1 He1' ltac:(lia))). lia.
    - lia. }
  set (k2 := Z.max (fexp prec emax (Zdigits2 m2 + e1) - e1) 0) in *.
  assert (0 <= k2) as Hk2 by lia.
  assert (e3 <= 3) as He3' by lia.
  assert (shr_m r3 <= 45 * 2 ^ (3 - e3)) as Hr3.
  { rewrite Hm3. apply Z.div_le_upper_bound; [apply pow2_pos, Hk2|].
    assert (m2 <= 45 * 2 ^ (3 - e1)) as Hle by lia.
    replace (3 - e1) with (k2 + (3 - e3)) in Hle by lia.
    rewrite pow2_split in Hle by lia. lia. }
  destruct (shr_m r3) as [|m|m] eqn:Em.
  - reflexivity.
  - assert (Z.leb e3 (emax - prec) = true) as ->
        by (apply Z.leb_le; unfold emax, prec; lia).
    cbn. auto.
  - lia.
Qed.

Lemma binary_round_below (s : bool) (mx : positive) (ex : Z) :
  ex <= 3 -> Z.pos mx < 45 * 2 ^ (3 - ex) ->
  bounded_360 s (binary_round prec emax s mx ex).
Proof.
  intros Hex Hmx. unfold binary_round.
  pose proof (shl_align_value mx ex
                (fexp prec emax (Z.pos (digits2_pos mx) + ex))) as Hs.
  destruct (shl_align mx ex (fexp prec emax (Z.pos (digits2_pos mx) + ex)))
    as [mz ez].
  destruct Hs as [Hez Hmz].
  apply binary_round_aux_below; [lia|].
  rewrite Hmz.
  replace (3 - ez) with ((3 - ex) + (ex - ez)) by lia.
  rewrite pow2_split by lia.
  assert (0 < 2 ^ (ex - ez)) by (apply pow2_pos; lia).
  nia.
Qed.

Lemma binary_normalize_below (s : bool) (R : Z) (e : Z) :
  e <= 3 -> 0 < R < 45 * 2 ^ (3 - e) ->
  bounded_360 s (binary_normalize prec emax (cond_Zopp s R) e false).
Proof.
  intros He [H0 HR].
  destruct R as [|p|p]; try lia.
  destruct s; cbn [cond_Zopp Z.opp binary_normalize];
    apply binary_round_below; assumption.
Qed.

Lemma bounded_360_in_range (x : float) :
  bounded_360 false x -> in_0_360 x = true.
Proof.
  destruct x as [s|s| |s m e]; cbn; try contradiction.
  - reflexivity.
  - intros (-> & He & Hm).
    assert ((e <=? 3) = true) as -> by (apply Z.leb_le; exact He).
    apply Z.leb_le, Hm.
Qed.

(** 360 in units of [2^e], for an exponent [e] of at most -44. *)
Lemma f360_units (e : Z) :
  e <= -44 -> 6333186975989760 * 2 ^ (-44 - e) = 45 * 2 ^ (3 - e).
Proof.
  intros He. replace (3 - e) with (47 + (-44 - e)) by lia.
  rewrite pow2_split by lia. change (2 ^ 47) with 140737488355328. lia.
Qed.

Lemma fmod_360_bounded (sa : bool) (ma : positive) (ea : Z) :
  bounded_360 sa (fmod (S754_finite sa ma ea) f360).
Proof.
  rewrite f360_value. unfold fmod.
  set (e := Z.min ea (-44)).
  assert (e <= -44) as He by lia.
  rewrite (f360_units e He).
  set (X := Z.pos ma * 2 ^ (ea - e)).
  assert (0 < 45 * 2 ^ (3 - e)) as HY
      by (assert (0 < 2 ^ (3 - e)) by (apply pow2_pos; lia); lia).
  pose proof (Z.mod_pos_bound X _ HY) as HR.
  destruct (X mod (45 * 2 ^ (3 - e))) as [|p|p] eqn:ER.
  - reflexivity.
  - apply binary_normalize_below; lia.
  - lia.
Qed.

Lemma add_360_bounded (m : positive) (e : Z) :
  e <= 3 -> Z.pos m <= 45 * 2 ^ (3 - e) ->
  bounded_360 false (add (S754_finite true m e) f360).
Proof.
  intros He Hm. rewrite f360_value. unfold add, SFadd.
  set (ez := Z.min e (-44)).
  assert (ez <= -44) as Hez by lia.
  pose proof (shl_align_value m e ez) as H1.
  destruct (shl_align m e ez) as [mz e1]. destruct H1 as [He1 Hmz].
  pose proof (shl_align_value 6333186975989760 (-44) ez) as H2.
  destruct (shl_align 6333186975989760 (-44) ez) as [my e2].
  destruct H2 as [He2 Hmy].
  cbn [fst cond_Zopp].
  replace e1 with ez in Hmz by lia. replace e2 with ez in Hmy by lia.
  rewrite (f360_units ez Hez) in Hmy.
  assert (Z.pos mz <= 45 * 2 ^ (3 - ez)) as Hle.
  { rewrite Hmz. replace (3 - ez) with ((3 - e) + (e - ez)) by lia.
    rewrite pow2_split by lia.
    assert (0 < 2 ^ (e - ez)) by (apply pow2_pos; lia). nia. }
  rewrite Hmy.
  set (S := - Z.pos mz + 45 * 2 ^ (3 - ez)).
  assert (0 <= S < 45 * 2 ^ (3 - ez)) as HS by (unfold S; lia).
  destruct S as [|p|p] eqn:ES.
  - reflexivity.
  - apply (binary_normalize_below false (Z.pos p) ez); lia.
  - lia.
Qed.

(** In binary64 the remainder by 360 of a finite angle is never negative and
    never above 360. *)
Lemma remainder_360_closed_range (a : float) :
  is_finite a = true -> in_0_360 (remainder a f360) = true.
Proof.
  intros Ha. unfold remainder.
  assert (is_zero f360 = false) as -> by (rewrite f360_value; reflexivity).
  assert (ltb f360 zero = false) as -> by (rewrite f360_value; reflexivity).
  assert (copysign_zero f360 = S754_zero false) as ->
      by (rewrite f360_value; reflexivity).
  destruct a as [s|s| |sa ma ea]; try discriminate.
  - assert (fmod (S754_zero s) f360 = S754_zero s) as ->
        by (rewrite f360_value; reflexivity).
    reflexivity.
  - pose proof (fmod_360_bounded sa ma ea) as Hb.
    destruct (fmod (S754_finite sa ma ea) f360) as [s'|s'| |s' m e];
      cbn in Hb; try contradiction.
    + reflexivity.
    + destruct Hb as (-> & He & Hm).
      destruct sa; cbn [eqb SFeqb SFcompare zero negb ltb SFltb xorb].
      * apply bounded_360_in_range, add_360_bounded; assumption.
      * apply bounded_360_in_range. cbn. auto.
Qed.

Lemma powerRZ_2_IZR (n : Z) : 0 <= n -> powerRZ 2 n = IZR (2 ^ n).
Proof.
  intros Hn. rewrite <- (Z2Nat.id n Hn) at 1 2.
  rewrite <- pow_powerRZ, pow_IZR. reflexivity.
Qed.

(** The test on integers says what it should of the value. *)
Lemma in_0_360_to_R (x : float) :
  in_0_360 x = true -> is_finite x = true /\ (0 <= to_R x <= 360)%R.
Proof.
  destruct x as [s|s| |s m e]; cbn [in_0_360 is_finite to_R]; try discriminate.
  - intros _. split; [reflexivity|]. lra.
  - destruct s; [discriminate|]. cbn [cond_Zopp].
    assert (0 < powerRZ 2 e)%R as Hpe by (apply powerRZ_lt; lra).
    assert (0 < IZR (Z.pos m))%R as Hm0 by (apply IZR_lt; lia).
    intros H. split; [reflexivity|].
    split; [apply Rmult_le_pos; lra|].
    destruct (Z.leb_spec e 3) as [He|He].
    + apply Z.leb_le in H. apply IZR_le in H.
      rewrite mult_IZR, <- powerRZ_2_IZR in H by lia.
      assert (powerRZ 2 e * powerRZ 2 (3 - e) = 8)%R as Hprod.
      { rewrite <- powerRZ_add by lra. replace (e + (3 - e)) with 3 by lia.
        simpl. lra. }
      assert (0 < powerRZ 2 (3 - e))%R as Hp by (apply powerRZ_lt; lra).
      nra.
    + apply Z.leb_le in H. apply IZR_le in H.
      rewrite mult_IZR, <- powerRZ_2_IZR in H by lia.
      assert (powerRZ 2 e = powerRZ 2 (e - 3) * 8)%R as ->.
      { replace e with ((e - 3) + 3) at 1 by lia.
        rewrite powerRZ_add by lra. simpl. lra. }
      lra.
Qed.

Lemma f360_to_R : to_R f360 = 360%R.
Proof.
  rewrite f360_value. unfold to_R, cond_Zopp, powerRZ.
  change (Pos.to_nat 44) with 44%nat.
  replace (IZR 6333186975989760) with (360 * 2 ^ 44)%R
    by (rewrite (pow_IZR 2 44), <- mult_IZR; reflexivity).
  assert (2 ^ 44 <> 0)%R by (apply pow_nonzero; lra).
  field; assumption.
Qed.

(** Whatever the C library's [atan2] returns, as long as the angle in
    degrees is finite, the [theta] of [cartesian_to_polar] is a finite
    double in the closed range. *)
Lemma cartesian_to_polar_closed_range
      (arctan2 : float -> float -> float) (x y : float) :
  is_finite (arctan2d arctan2 y x) = true ->
  is_finite (snd (cartesian_to_polar arctan2 x y)) = true /\
  (0 <= to_R (snd (cartesian_to_polar arctan2 x y)) <= 360)%R.
Proof.
  intros H. cbn [cartesian_to_polar snd].
  apply in_0_360_to_R, remainder_360_closed_range, H.
Qed.

(** *** The double nearest to the arctangent of the example *)

Lemma pow2_IZR (n : nat) (z : Z) : (2 ^ Z.of_nat n)%Z = z -> (2 ^ n)%R = IZR z.
Proof. intros <-. apply pow_IZR. Qed.

Lemma tiny_negative_to_R : to_R tiny_negative = (- / 2 ^ 70)%R.
Proof.
  change tiny_negative with (S754_finite true 4503599627370496 (-122)).
  unfold to_R, cond_Zopp, powerRZ.
  change (Pos.to_nat 122) with (52 + 70)%nat.
  rewrite pow_add.
  rewrite opp_IZR, <- (pow2_IZR 52 4503599627370496 eq_refl).
  assert (2 ^ 52 <> 0)%R by (apply pow_nonzero; lra).
  assert (2 ^ 70 <> 0)%R by (apply pow_nonzero; lra).
  field; repeat split; assumption.
Qed.

Lemma succ_tiny_negative_to_R :
  to_R (succ tiny_negative) = (- / 2 ^ 70 + / 2 ^ 123)%R.
Proof.
  change (succ tiny_negative) with (S754_finite true 9007199254740991 (-123)).
  unfold to_R, cond_Zopp, powerRZ.
  change (Pos.to_nat 123) with 123%nat.
  rewrite opp_IZR.
  replace (IZR 9007199254740991) with (2 ^ 53 - 1)%R
    by (rewrite (pow2_IZR 53 9007199254740992 eq_refl); lra).
  replace (2 ^ 123)%R with (2 ^ 53 * 2 ^ 70)%R by (rewrite <- pow_add; reflexivity).
  assert (2 ^ 53 <> 0)%R by (apply pow_nonzero; lra).
  assert (2 ^ 70 <> 0)%R by (apply pow_nonzero; lra).
  field; repeat split; assumption.
Qed.

Lemma one_to_R : to_R one = 1%R.
Proof.
  change one with (S754_finite false 4503599627370496 (-52)).
  unfold to_R, cond_Zopp, powerRZ.
  change (Pos.to_nat 52) with 52%nat.
  rewrite <- (pow2_IZR 52 4503599627370496 eq_refl).
  apply Rinv_r, pow_nonzero. lra.
Qed.

(** The exact arctangent at [(y, x) = (-2^-70, 1)] lies between [y] and the
    midpoint of [y] and the next double: [y] is the double nearest to it. *)
Lemma arctangent_nearest_tiny_negative :
  (to_R tiny_negative
   < Exact.arctan2 (to_R tiny_negative) (to_R one)
   < (to_R tiny_negative + to_R (succ tiny_negative)) / 2)%R.
Proof.
  rewrite tiny_negative_to_R, succ_tiny_negative_to_R, one_to_R.
  set (t := (/ 2 ^ 70)%R).
  assert (0 < t)%R as Ht by (apply Rinv_0_lt_compat, pow_lt; lra).
  unfold Exact.arctan2.
  destruct (Rlt_dec 0 1) as [_|H]; [|lra].
  replace (- t / 1)%R with (- t)%R by field.
  rewrite atan_opp.
  destruct (ExactProps.atan_bounds t Ht) as [Hlo Hhi].
  assert (t ^ 3 < / 2 ^ 124)%R as Hcube.
  { unfold t. rewrite pow_inv, <- pow_mult.
    apply Rinv_lt_contravar.
    - apply Rmult_lt_0_compat; apply pow_lt; lra.
    - apply Rlt_pow; [lra | simpl; lia]. }
  assert (/ 2 ^ 123 = 2 * / 2 ^ 124)%R as H123.
  { change 124%nat with (S 123). rewrite <- tech_pow_Rmult.
    assert (2 ^ 123 <> 0)%R by (apply pow_nonzero; lra). field; assumption. }
  lra.
Qed.

(** At the origin, in binary64: the C standard has [atan2(+0, +0) = +0]. *)
Lemma cartesian_to_polar_origin_b64 (arctan2 : float -> float -> float) :
  arctan2 zero zero = zero ->
  cartesian_to_polar arctan2 zero zero = (zero, zero).
Proof.
  intros H. unfold cartesian_to_polar, arctan2d. rewrite H.
  vm_compute. reflexivity.
Qed.

(** C4, as the specification words it, fails in binary64.  Take [x = 1] and
    [y = -2^-70]: the double nearest to the arctangent is [y] itself
    ([arctangent_nearest_tiny_negative]), which is what a C library's [atan2]
    returns there; [cartesian_to_polar] then returns [theta = 360], since
    [360 + degrees y] rounds to 360. *)
Lemma cartesian_to_polar_reaches_360 :
  exists x y : float,
    x = one /\ y = tiny_negative /\
    is_finite x = true /\ is_finite y = true /\
    forall arctan2 : float -> float -> float,
      arctan2 y x = y ->
      cartesian_to_polar arctan2 x y = (one, f360) /\
      to_R (snd (cartesian_to_polar arctan2 x y)) = 360%R.
Proof.
  exists one, tiny_negative.
  split; [reflexivity|]. split; [reflexivity|].
  split; [reflexivity|]. split; [reflexivity|].
  intros arctan2 H.
  unfold cartesian_to_polar, arctan2d. rewrite H.
  rewrite remainder_tiny_negative.
  split; [vm_compute; reflexivity | apply f360_to_R].
Qed.

(** *** Checks over a range of exponents *)

Lemma same_float_eq (a b : float) : same_float a b = true -> a = b.
Proof.
  destruct a as [s|s| |s m e], b as [s'|s'| |s' m' e']; simpl;
    try discriminate; try reflexivity.
  - intros H. apply Bool.eqb_prop in H. congruence.
  - intros H. apply Bool.eqb_prop in H. congruence.
  - intros H. apply andb_true_iff in H. destruct H as [H He].
    apply andb_true_iff in H. destruct H as [Hs Hm].
    apply Bool.eqb_prop in Hs. apply Pos.eqb_eq in Hm. apply Z.eqb_eq in He.
    congruence.
Qed.

Lemma range_check (P : Z -> bool) (lo : Z) (n : nat) :
  forallb (fun k => P (lo + Z.of_nat k)) (seq 0 n) = true ->
  forall e, lo <= e < lo + Z.of_nat n -> P e = true.
Proof.
  intros H e He. rewrite forallb_forall in H.
  replace e with (lo + Z.of_nat (Z.to_nat (e - lo))) by lia.
  apply H. apply in_seq. lia.
Qed.

End B64Props.

(** ** Histograms, densities and averages *)

Module BinningProps.
Import Broadcast BroadcastProps Binning.
Local Open Scope Q_scope.

(** *** Facts on the primitives *)


Lemma histogram_length angles bins weights h :
  histogram angles bins weights = Some h -> length h = nbins bins.
Proof.
  unfold histogram.
  destruct (valid_bins bins); [|discriminate].
  destruct (samples angles weights); [|discriminate].
  intros [= <-]. rewrite length_map, length_seq. reflexivity.
Qed.

Lemma py_slice_tail {A : Type} (a : list A) :
  py_slice a 1 (length a) = tl a.
Proof.
  unfold py_slice. destruct a as [|x a]; simpl; [reflexivity|].
  rewrite Nat.sub_0_r. apply firstn_all.
Qed.

(** *** The bin centres of make_angular_PDF *)

Lemma pdf_bin_centers_inv (bin_edges centers : list Q) :
  pdf_bin_centers bin_edges = Some centers ->
  exists e0 e1,
    py_index bin_edges 0 = Some e0 /\ py_index bin_edges 1 = Some e1 /\
    centers = map (fun e => e - (e1 - e0) / 2) (tl bin_edges).
Proof.
  unfold pdf_bin_centers.
  destruct (py_index bin_edges 1) as [e1|] eqn:E1; [|discriminate].
  destruct (py_index bin_edges 0) as [e0|] eqn:E0; [|discriminate].
  rewrite py_slice_tail. intros [= <-]. exists e0, e1. auto.
Qed.

Lemma tl_nth {A : Type} (l : list A) (i : nat) :
  nth_error (tl l) i = nth_error l (S i).
Proof. destruct l; [destruct i|]; reflexivity. Qed.

(** C1, as the code has it.  Whenever [make_angular_PDF] evaluates its bin
    centres, there is one per bin and [bin_centers[i]] is [bin_edges[i+1]]
    less half of [bin_edges[1] - bin_edges[0]], the spacing of the first two
    edges, whatever the other spacings are; these are the centres the
    function returns. *)
Theorem pdf_bin_centers_first_width (bin_edges centers : list Q) :
  pdf_bin_centers bin_edges = Some centers ->
  length centers = (length bin_edges - 1)%nat /\
  (exists e0 e1,
      py_index bin_edges 0 = Some e0 /\ py_index bin_edges 1 = Some e1 /\
      forall i e, nth_error bin_edges (S i) = Some e ->
                  nth_error centers i = Some (e - (e1 - e0) / 2)) /\
  (forall angles weight hist c,
      make_angular_PDF angles weight bin_edges = Some (hist, c) ->
      c = centers).
Proof.
  intros Hc.
  destruct (pdf_bin_centers_inv _ _ Hc) as (e0 & e1 & H0 & H1 & Heq).
  split; [|split].
  - rewrite Heq, length_map. destruct bin_edges; simpl; lia.
  - exists e0, e1. repeat split; auto.
    intros i e He. rewrite Heq.
    apply (map_nth_error (fun e => e - (e1 - e0) / 2)).
    rewrite tl_nth. exact He.
  - intros angles weight hist c. unfold make_angular_PDF. rewrite Hc.
    destruct (histogram_density angles bin_edges (Some weight)); [|discriminate].
    intros [= _ <-]. reflexivity.
Qed.

Lemma pdf_bin_centers_first_width_witness :
  pdf_bin_centers [0; 1; 3] = Some [1 - (1 - 0) / 2; 3 - (1 - 0) / 2] /\
  length [1 - (1 - 0) / 2; 3 - (1 - 0) / 2] = 2%nat.
Proof.
  split; [reflexivity|].
  apply (pdf_bin_centers_first_width [0; 1; 3]). reflexivity.
Defined.

(** C1, as the specification words it, fails: with the edges [0, 1, 3] the
    first centre is [1 - (1 - 0)/2 = 1/2], while the spacing of the last two
    edges would give [1 - (3 - 1)/2 = 0]. *)
Lemma pdf_bin_centers_not_last_width :
  exists c w,
    option_map (fun r => nth_error (snd r) 0)
               (make_angular_PDF [1 # 2] [1] [0; 1; 3]) = Some (Some c) /\
    center_from_last_width [0; 1; 3] 0 = Some w /\
    c == 1 # 2 /\ w == 0 /\ ~ c == w.
Proof.
  eexists. eexists.
  split; [vm_compute; reflexivity|].
  split; [vm_compute; reflexivity|].
  split; [reflexivity|]. split; [reflexivity|]. discriminate.
Qed.

(** On evenly spaced edges the two widths agree, so there the wording of the
    specification and the code give the same centres. *)
Lemma center_from_last_width_default (i : nat) (e : Q) :
  nth_error default_bin_edges (S i) = Some e ->
  exists c w,
    option_map (fun cs => nth_error cs i) (pdf_bin_centers default_bin_edges)
    = Some (Some c) /\
    center_from_last_width default_bin_edges i = Some w /\ c == w.
Proof.
  intros He.
  destruct (pdf_bin_centers default_bin_edges) as [cs|] eqn:Ec;
    [|vm_compute in Ec; discriminate].
  destruct (pdf_bin_centers_inv _ _ Ec) as (e0 & e1 & H0 & H1 & Heq).
  assert (nth_error cs i = Some (e - (e1 - e0) / 2)) as Hc.
  { rewrite Heq. apply (map_nth_error (fun e => e - (e1 - e0) / 2)).
    rewrite tl_nth. exact He. }
  unfold center_from_last_width. rewrite He.
  destruct (py_index default_bin_edges (-1)) as [l1|] eqn:L1;
    [|vm_compute in L1; discriminate].
  destruct (py_index default_bin_edges (-2)) as [l2|] eqn:L2;
    [|vm_compute in L2; discriminate].
  exists (e - (e1 - e0) / 2), (e - (l1 - l2) / 2).
  split; [simpl; rewrite Hc; reflexivity|].
  split; [reflexivity|].
  vm_compute in H0, H1, L1, L2.
  injection H0 as <-. injection H1 as <-. injection L1 as <-. injection L2 as <-.
  assert ((360 # 360) - (0 # 360) == (129600 # 360) - (129240 # 360)) as Hw
      by reflexivity.
  rewrite Hw. reflexivity.
Qed.

(** *** Every sample in range falls in exactly one bin *)

Lemma Qlt_bool_iff (x y : Q) : Qlt_bool x y = true <-> x < y.
Proof.
  unfold Qlt_bool. rewrite negb_true_iff.
  split.
  - intros H. apply Qnot_le_lt. intros Hle.
    apply Qle_bool_iff in Hle. congruence.
  - intros H. destruct (Qle_bool y x) eqn:E; [|reflexivity].
    apply Qle_bool_iff in E. apply Qlt_not_le in H. contradiction.
Qed.

Lemma in_bin_shift (x : Q) (es : list Q) (i : nat) (a : Q) :
  in_bin (x :: es) (S i) a = in_bin es i a.
Proof.
  unfold in_bin, nbins.
  change (nth_error (x :: es) (S i)) with (nth_error es i).
  change (nth_error (x :: es) (S (S i))) with (nth_error es (S i)).
  destruct (nth_error es i) as [lo|]; [|reflexivity].
  destruct (nth_error es (S i)) as [hi|] eqn:E; [|reflexivity].
  assert (S i < length es)%nat as Hlt by (apply nth_error_Some; congruence).
  replace (Nat.eqb (S (S i)) (length (x :: es) - 1))
    with (Nat.eqb (S i) (length es - 1)); [reflexivity|].
  simpl length.
  destruct (Nat.eqb (S i) (length es - 1)) eqn:E1;
    destruct (Nat.eqb (S (S i)) (S (length es) - 1)) eqn:E2; try reflexivity.
  - apply Nat.eqb_eq in E1. apply Nat.eqb_neq in E2. lia.
  - apply Nat.eqb_neq in E1. apply Nat.eqb_eq in E2. lia.
Qed.

Lemma filter_map_comm {A B : Type} (f : A -> B) (p : B -> bool) (l : list A) :
  filter p (map f l) = map f (filter (fun x => p (f x)) l).
Proof.
  induction l as [|x l IH]; simpl; [reflexivity|].
  rewrite IH. destruct (p (f x)); reflexivity.
Qed.

Lemma hits_cons (x y : Q) (rest : list Q) (a : Q) :
  length (hits (x :: y :: rest) a)
  = ((if in_bin (x :: y :: rest) 0 a then 1 else 0)
     + length (hits (y :: rest) a))%nat.
Proof.
  unfold hits.
  replace (nbins (x :: y :: rest)) with (S (nbins (y :: rest)))
    by (unfold nbins; simpl; lia).
  rewrite <- cons_seq, <- seq_shift.
  simpl filter. rewrite filter_map_comm.
  rewrite (filter_ext _ (fun i => in_bin (y :: rest) i a))
    by (intros i; apply in_bin_shift).
  destruct (in_bin (x :: y :: rest) 0 a); simpl; rewrite length_map; reflexivity.
Qed.

Lemma last_default (y d d' : Q) (l : list Q) :
  last (y :: l) d = last (y :: l) d'.
Proof.
  revert y; induction l as [|z l IH]; intros y; [reflexivity|].
  change (last (y :: z :: l) d) with (last (z :: l) d).
  change (last (y :: z :: l) d') with (last (z :: l) d').
  apply IH.
Qed.

Lemma last_cons_cons (x y d d' : Q) (l : list Q) :
  last (x :: y :: l) d = last (y :: l) d'.
Proof.
  change (last (x :: y :: l) d) with (last (y :: l) d). apply last_default.
Qed.

Lemma increasing_le_last (x : Q) (l : list Q) :
  increasing (x :: l) = true -> x <= last (x :: l) x.
Proof.
  revert x; induction l as [|y l IH]; intros x H.
  - simpl. apply Qle_refl.
  - change (increasing (x :: y :: l))
      with (Qle_bool x y && increasing (y :: l)) in H.
    apply andb_true_iff in H. destruct H as [Hxy Hl].
    apply Qle_bool_iff in Hxy.
    apply Qle_trans with y; [exact Hxy|].
    rewrite (last_cons_cons x y x y l). apply IH, Hl.
Qed.

Lemma Qbool_cases (x y : Q) :
  (Qle_bool x y = true /\ x <= y) \/ (Qle_bool x y = false /\ y < x).
Proof.
  destruct (Qle_bool x y) eqn:E.
  - left. split; [reflexivity|]. apply Qle_bool_iff, E.
  - right. split; [reflexivity|]. apply Qnot_le_lt. intros H.
    apply Qle_bool_iff in H. congruence.
Qed.

Lemma Qle_bool_true (x y : Q) : x <= y -> Qle_bool x y = true.
Proof. apply Qle_bool_iff. Qed.

Lemma Qle_bool_false (x y : Q) : y < x -> Qle_bool x y = false.
Proof.
  intros H. destruct (Qbool_cases x y) as [[_ Hle]|[E _]]; [|exact E].
  apply Qlt_not_le in H. contradiction.
Qed.

Lemma hits_in_range (edges : list Q) (a : Q) :
  valid_bins edges = true ->
  length (hits edges a) = if in_range edges a then 1%nat else 0%nat.
Proof.
  unfold valid_bins. intros H. apply andb_true_iff in H. destruct H as [Hlen Hinc].
  apply Nat.leb_le in Hlen.
  destruct edges as [|x [|y rest]]; simpl in Hlen; try lia. clear Hlen.
  revert x y Hinc. induction rest as [|z rest IH]; intros x y Hinc.
  - unfold hits, in_range, in_bin, nbins, Qlt_bool. simpl.
    destruct (Qbool_cases x a) as [[-> Hxa]|[-> Hxa]]; simpl; [|reflexivity].
    destruct (Qbool_cases a y) as [[-> Hay]|[-> Hay]]; simpl.
    + destruct (Qbool_cases y a) as [[-> Hya]|[-> Hya]]; simpl; [|reflexivity].
      rewrite (Qeq_eq_bool a y) by (apply Qle_antisym; assumption).
      reflexivity.
    + rewrite (Qle_bool_true y a) by (apply Qlt_le_weak, Hay). simpl.
      destruct (Qeq_bool a y) eqn:E; [|reflexivity].
      apply Qeq_bool_iff in E. rewrite E in Hay.
      exfalso. exact (Qlt_irrefl _ Hay).
  - rewrite hits_cons.
    change (increasing (x :: y :: z :: rest))
      with (Qle_bool x y && increasing (y :: z :: rest)) in Hinc.
    apply andb_true_iff in Hinc. destruct Hinc as [Hxy Hinc].
    apply Qle_bool_iff in Hxy.
    rewrite (IH y z Hinc).
    pose proof (increasing_le_last y (z :: rest) Hinc) as Hylast.
    unfold in_range.
    rewrite (last_cons_cons x y x y (z :: rest)).
    set (hi := last (y :: z :: rest) y) in *.
    unfold in_bin, nbins, Qlt_bool. simpl nth_error. simpl length.
    replace (Nat.eqb 1 (S (S (S (length rest))) - 1)) with false
      by (symmetry; apply Nat.eqb_neq; lia).
    rewrite andb_false_l, orb_false_r.
    destruct (Qbool_cases x a) as [[-> Hxa]|[-> Hxa]]; simpl.
    + destruct (Qbool_cases y a) as [[-> Hya]|[-> Hya]]; simpl; [reflexivity|].
      rewrite (Qle_bool_true a hi); [reflexivity|].
      apply Qle_trans with y; [apply Qlt_le_weak, Hya | exact Hylast].
    + rewrite (Qle_bool_false y a); [reflexivity|].
      apply Qlt_le_trans with x; assumption.
Qed.

Lemma Qsum_map_ext {A : Type} (f g : A -> Q) (l : list A) :
  (forall i, f i == g i) -> Qsum (map f l) == Qsum (map g l).
Proof.
  intros H. induction l as [|i l IH]; simpl; [reflexivity|].
  rewrite H, IH. reflexivity.
Qed.

Lemma Qsum_map_plus {A : Type} (f g : A -> Q) (l : list A) :
  Qsum (map (fun i => f i + g i) l) == Qsum (map f l) + Qsum (map g l).
Proof.
  induction l as [|i l IH]; simpl; [reflexivity|].
  rewrite IH. ring.
Qed.

Lemma Qsum_indicator {A : Type} (p : A -> bool) (w : Q) (l : list A) :
  Qsum (map (fun i => if p i then w else 0) l)
  == inject_Z (Z.of_nat (length (filter p l))) * w.
Proof.
  induction l as [|i l IH]; simpl; [ring|].
  rewrite IH. destruct (p i); [|ring].
  simpl length. rewrite Nat2Z.inj_succ. unfold Z.succ.
  rewrite inject_Z_plus. ring.
Qed.

Lemma bin_total_cons (edges : list Q) (s : Q * Q) (smp : list (Q * Q)) (i : nat) :
  bin_total edges (s :: smp) i
  == (if in_bin edges i (fst s) then snd s else 0) + bin_total edges smp i.
Proof.
  unfold bin_total, bin_samples. simpl filter.
  destruct (in_bin edges i (fst s)); simpl; ring.
Qed.

Lemma sum_bins (edges : list Q) (smp : list (Q * Q)) :
  valid_bins edges = true ->
  Qsum (map (bin_total edges smp) (seq 0 (nbins edges)))
  == Qsum (map snd (filter (fun s => in_range edges (fst s)) smp)).
Proof.
  intros Hv. induction smp as [|s smp IH].
  - simpl. rewrite (Qsum_map_ext _ (fun _ => 0 + 0)) by (intros; reflexivity).
    rewrite Qsum_map_plus.
    assert (Qsum (map (fun _ : nat => 0) (seq 0 (nbins edges))) == 0) as ->.
    { induction (seq 0 (nbins edges)); simpl; [reflexivity|].
      rewrite IHl. ring. }
    ring.
  - rewrite (Qsum_map_ext _ _ _ (bin_total_cons edges s smp)).
    rewrite Qsum_map_plus, IH.
    rewrite (Qsum_indicator (fun i => in_bin edges i (fst s))).
    fold (hits edges (fst s)). rewrite (hits_in_range edges (fst s) Hv).
    simpl filter. destruct (in_range edges (fst s)); simpl; ring.
Qed.

Lemma samples_weighted (angles weight : list Q) (smp : list (Q * Q)) :
  samples angles (Some weight) = Some smp ->
  smp = combine angles weight /\ length angles = length weight.
Proof.
  unfold samples.
  destruct (Nat.eqb (length angles) (length weight)) eqn:E; [|discriminate].
  intros [= <-]. apply Nat.eqb_eq in E. auto.
Qed.

(** The sum over the bins is the weight of the samples in range. *)
Lemma histogram_total (angles weight bins h : list Q) :
  histogram angles bins (Some weight) = Some h ->
  Qsum h == weight_in_range angles weight bins.
Proof.
  unfold histogram.
  destruct (valid_bins bins) eqn:Hv; [|discriminate].
  destruct (samples angles (Some weight)) as [smp|] eqn:Es; [|discriminate].
  intros [= <-]. destruct (samples_weighted _ _ _ Es) as [-> _].
  apply sum_bins, Hv.
Qed.

(** *** The integral of the density *)

Lemma Qeq_bool_false (x y : Q) : ~ x == y -> Qeq_bool x y = false.
Proof.
  intros H. destruct (Qeq_bool x y) eqn:E; [|reflexivity].
  apply Qeq_bool_iff in E. contradiction.
Qed.

Lemma np_divide_some (x y : Q) :
  ~ y == 0 -> np_divide (Some x) (Some y) = Some (x / y).
Proof. intros H. unfold np_divide. rewrite (Qeq_bool_false y 0 H). reflexivity. Qed.










(** *** The values of make_angular_average *)

Lemma zip_with_nth_some {A B X : Type} (f : A -> B -> X) a b i x y :
  nth_error a i = Some x -> nth_error b i = Some y ->
  nth_error (zip_with f a b) i = Some (f x y).
Proof.
  revert b i; induction a as [|x0 a IH]; intros [|y0 b] [|i]; simpl;
    try discriminate.
  - intros [= ->] [= ->]. reflexivity.
  - apply IH.
Qed.

Lemma masked_assign_nth (a : list Q) (c : list Q) (v : Q) a' i x y :
  masked_assign a (eq_zero c) v = Some a' ->
  nth_error a i = Some x -> nth_error c i = Some y ->
  nth_error a' i = Some (if Qeq_bool y 0 then v else x).
Proof.
  unfold masked_assign, eq_zero.
  destruct (Nat.eqb (length a) (length (map (fun c0 => Qeq_bool c0 0) c)));
    [|discriminate].
  intros [= <-] Hx Hy.
  apply (zip_with_nth_some (fun x (m : bool) => if m then v else x));
    [exact Hx|].
  apply (map_nth_error (fun c0 => Qeq_bool c0 0)), Hy.
Qed.

Lemma masked_assign_length (a : list Q) (mask : list bool) (v : Q) a' :
  masked_assign a mask v = Some a' -> length a' = length a.
Proof.
  unfold masked_assign.
  destruct (Nat.eqb (length a) (length mask)) eqn:E; [|discriminate].
  apply Nat.eqb_eq in E. intros [= <-]. apply zip_with_length, E.
Qed.

(** The unweighted histogram counts the samples of each bin. *)
Lemma bin_total_count (edges angles : list Q) (i : nat) :
  bin_total edges (map (fun a => (a, 1)) angles) i
  == inject_Z (Z.of_nat (bin_count edges angles i)).
Proof.
  unfold bin_total, bin_samples, bin_count.
  induction angles as [|a angles IH]; simpl; [reflexivity|].
  destruct (in_bin edges i a); simpl; [|exact IH].
  rewrite IH, Nat2Z.inj_succ. unfold Z.succ. rewrite inject_Z_plus. ring.
Qed.

Lemma in_bin_index (edges : list Q) (i : nat) (a : Q) :
  in_bin edges i a = true -> (i < nbins edges)%nat.
Proof.
  unfold in_bin, nbins.
  destruct (nth_error edges i); [|discriminate].
  destruct (nth_error edges (S i)) eqn:E; [|discriminate].
  intros _. assert (S i < length edges)%nat by (apply nth_error_Some; congruence).
  lia.
Qed.

Lemma bin_count_index (edges angles : list Q) (i : nat) :
  (0 < bin_count edges angles i)%nat -> (i < nbins edges)%nat.
Proof.
  unfold bin_count. induction angles as [|a angles IH]; simpl; [lia|].
  destruct (in_bin edges i a) eqn:E; [|exact IH].
  intros _. apply (in_bin_index _ _ _ E).
Qed.

Lemma histogram_nth (angles bins : list Q) weights h smp i :
  histogram angles bins weights = Some h ->
  samples angles weights = Some smp ->
  (i < nbins bins)%nat ->
  nth_error h i = Some (bin_total bins smp i).
Proof.
  unfold histogram. destruct (valid_bins bins); [|discriminate].
  intros H Hs. rewrite Hs in H. injection H as <-. intros Hi.
  rewrite (map_nth_error (bin_total bins smp) i (seq 0 (nbins bins)) (d := i));
    [reflexivity|].
  rewrite nth_error_nth' with (d := 0%nat) by (rewrite length_seq; exact Hi).
  rewrite seq_nth by exact Hi. reflexivity.
Qed.

(** Lines 216 to 218 on the two histograms, bin by bin. *)
Lemma average_nth (angles weight edges h c h' c' : list Q) (avg : list fq) (i : nat) :
  histogram angles edges (Some weight) = Some h ->
  histogram angles edges None = Some c ->
  masked_assign h (eq_zero c) 1 = Some h' ->
  masked_assign c (eq_zero c) 1 = Some c' ->
  divide_arrays h' c' = Some avg ->
  (i < nbins edges)%nat ->
  exists cnt,
    cnt == inject_Z (Z.of_nat (bin_count edges angles i)) /\
    nth_error avg i
    = Some (if Qeq_bool cnt 0 then Some 1
            else Some (bin_weight edges angles weight i / cnt)).
Proof.
  intros Hh Hc Hh' Hc' Hd Hi.
  assert (samples angles (Some weight) = Some (combine angles weight)) as Hs.
  { unfold histogram in Hh. destruct (valid_bins edges); [|discriminate].
    destruct (samples angles (Some weight)) as [smp|] eqn:Es; [|discriminate].
    destruct (samples_weighted _ _ _ Es) as [-> _]. reflexivity. }
  pose proof (histogram_nth _ _ _ _ _ i Hh Hs Hi) as Hhi.
  pose proof (histogram_nth _ _ None _ _ i Hc eq_refl Hi) as Hci.
  set (cnt := bin_total edges (map (fun a => (a, 1)) angles) i) in *.
  exists cnt. split; [apply bin_total_count|].
  pose proof (masked_assign_nth _ _ _ _ _ _ _ Hh' Hhi Hci) as Hh'i.
  pose proof (masked_assign_nth _ _ _ _ _ _ _ Hc' Hci Hci) as Hc'i.
  unfold divide_arrays in Hd.
  rewrite broadcast2_same_length in Hd.
  - injection Hd as <-.
    rewrite (zip_with_nth_some _ _ _ _ _ _ Hh'i Hc'i).
    f_equal. unfold bin_weight.
    destruct (Qeq_bool cnt 0) eqn:E; [reflexivity|].
    unfold np_divide. rewrite E. reflexivity.
  - rewrite (masked_assign_length _ _ _ _ Hh'), (masked_assign_length _ _ _ _ Hc').
    rewrite (histogram_length _ _ _ _ Hh), (histogram_length _ _ _ _ Hc).
    reflexivity.
Qed.

Lemma average_bin_centers_nth (edges : list Q) (i : nat) (lo hi : Q) :
  nth_error edges i = Some lo -> nth_error edges (S i) = Some hi ->
  exists c, nth_error (average_bin_centers edges) i = Some c /\
            c == (lo + hi) / 2.
Proof.
  intros Hlo Hhi.
  assert (S i < length edges)%nat as Hlt by (apply nth_error_Some; congruence).
  unfold average_bin_centers.
  exists (np_mean (py_slice edges i (i + 2))). split.
  - rewrite (map_nth_error (fun i => np_mean (py_slice edges i (i + 2))) i
               (seq 0 (length edges - 1)) (d := i)); [reflexivity|].
    rewrite nth_error_nth' with (d := 0%nat) by (rewrite length_seq; lia).
    rewrite seq_nth by lia. reflexivity.
  - unfold py_slice. replace (i + 2 - i)%nat with 2%nat by lia.
    assert (skipn i edges = lo :: hi :: skipn (S (S i)) edges) as ->.
    { clear Hlt. revert i Hlo Hhi. induction edges as [|e edges IH]; intros i Hlo Hhi.
      - destruct i; discriminate.
      - destruct i as [|i].
        + simpl in Hlo. injection Hlo as ->.
          destruct edges as [|e' edges]; [discriminate|].
          simpl in Hhi. injection Hhi as ->. reflexivity.
        + simpl. apply IH; assumption. }
    unfold np_mean. simpl. field.
Qed.

End BinningProps.

(** ** make_angular_average in the store *)

Module StoreProps.
Import Broadcast BroadcastProps Binning BinningProps Store.

(** *** Inversion of the primitives *)

Lemma bind_inv {A B : Type} (m : M A) (f : A -> M B) s b s'' :
  bind m f s = Some (b, s'') ->
  exists a s', m s = Some (a, s') /\ f a s' = Some (b, s'').
Proof.
  unfold bind. destruct (m s) as [[a s']|]; [|discriminate].
  intros H. exists a, s'. auto.
Qed.

Lemma read_inv (r : ref) s a s' :
  read r s = Some (a, s') -> s !! r = Some a /\ s' = s.
Proof.
  unfold read, lift. destruct (s !! r); [|discriminate].
  intros [= -> ->]. auto.
Qed.

Lemma lift_inv {A : Type} (o : option A) s a s' :
  lift o s = Some (a, s') -> o = Some a /\ s' = s.
Proof. unfold lift. destruct o; [|discriminate]. intros [= -> ->]. auto. Qed.

Lemma call_histogram_inv (angles bins : ref) (weights : option ref) s l s' :
  call_histogram angles bins weights s = Some (l, s') ->
  exists a e w h,
    s !! angles = Some a /\ s !! bins = Some e /\
    match weights with
    | Some r => exists ws, s !! r = Some ws /\ w = Some ws
    | None => w = None
    end /\
    histogram a e w = Some h /\
    l = fresh (dom s) /\ s' = <[l := h]> s.
Proof.
  unfold call_histogram. intros H.
  apply bind_inv in H as (a & s1 & Ha & H). apply read_inv in Ha as [Ha ->].
  apply bind_inv in H as (e & s1 & He & H). apply read_inv in He as [He ->].
  apply bind_inv in H as (w & s1 & Hw & H).
  apply bind_inv in H as (h & s2 & Hh & H). apply lift_inv in Hh as [Hh ->].
  unfold alloc in H. injection H as <- <-.
  exists a, e, w, h.
  destruct weights as [r|].
  - apply bind_inv in Hw as (ws & s2 & Hws & Hw). apply read_inv in Hws as [Hws ->].
    unfold ret in Hw. injection Hw as <- <-.
    repeat split; eauto.
  - unfold ret in Hw. injection Hw as <- <-. repeat split; eauto.
Qed.

Lemma assign_where_zero_inv (target source : ref) (v : Q) s u s' :
  assign_where_zero target source v s = Some (u, s') ->
  exists a c a',
    s !! target = Some a /\ s !! source = Some c /\
    masked_assign a (eq_zero c) v = Some a' /\
    s' = <[target := a']> s.
Proof.
  unfold assign_where_zero. intros H.
  apply bind_inv in H as (a & s1 & Ha & H). apply read_inv in Ha as [Ha ->].
  apply bind_inv in H as (c & s1 & Hc & H). apply read_inv in Hc as [Hc ->].
  apply bind_inv in H as (a' & s1 & Ha' & H). apply lift_inv in Ha' as [Ha' ->].
  injection H as _ <-. exists a, c, a'. auto.
Qed.

Lemma lookup_fresh_ne (s : store) (r : ref) (a : list Q) :
  s !! r = Some a -> r <> fresh (dom s).
Proof.
  intros Hr ->. apply (is_fresh (dom s)).
  apply elem_of_dom. eauto.
Qed.

(** What a call that returns has done. *)
Lemma make_angular_average_inv (angles weight bin_edges : ref) s r s' :
  make_angular_average angles weight bin_edges s = Some (r, s') ->
  exists a w e h c h' c' avg,
    s !! angles = Some a /\ s !! weight = Some w /\ s !! bin_edges = Some e /\
    histogram a e (Some w) = Some h /\ histogram a e None = Some c /\
    masked_assign h (eq_zero c) 1 = Some h' /\
    masked_assign c (eq_zero c) 1 = Some c' /\
    divide_arrays h' c' = Some avg /\
    r = (avg, average_bin_centers e) /\
    exists hist counts,
      hist = fresh (dom s) /\
      counts = fresh (dom (<[hist := h]> s)) /\
      s' = <[counts := c']> (<[hist := h']> (<[counts := c]> (<[hist := h]> s))).
Proof.
  unfold make_angular_average. intros H.
  apply bind_inv in H as (hist & s1 & H1 & H).
  apply call_histogram_inv in H1
    as (a & e & w' & h & Ha & He & (w & Hw & ->) & Hh & Hhist & ->).
  apply bind_inv in H as (counts & s2 & H2 & H).
  apply call_histogram_inv in H2
    as (a2 & e2 & w2 & c & Ha2 & He2 & -> & Hc & Hcounts & ->).
  assert (angles <> hist) as Hah by (subst hist; eapply lookup_fresh_ne; eauto).
  assert (bin_edges <> hist) as Heh by (subst hist; eapply lookup_fresh_ne; eauto).
  rewrite lookup_insert_ne in Ha2 by auto.
  rewrite lookup_insert_ne in He2 by auto.
  assert (a2 = a) as -> by congruence. assert (e2 = e) as -> by congruence.
  set (s1 := <[hist := h]> s) in *.
  assert (hist <> counts) as Hhc.
  { subst counts. apply (lookup_fresh_ne s1 hist h).
    unfold s1. apply lookup_insert_eq. }
  assert (bin_edges <> counts) as Hec.
  { subst counts. apply (lookup_fresh_ne s1 bin_edges e).
    unfold s1. rewrite lookup_insert_ne by auto. exact He. }
  apply bind_inv in H as (centers & s3 & H3 & H).
  apply bind_inv in H3 as (e3 & s3' & He3 & H3). apply read_inv in He3 as [He3 ->].
  unfold ret in H3. injection H3 as <- <-.
  rewrite lookup_insert_ne in He3 by auto.
  unfold s1 in He3. rewrite lookup_insert_ne in He3 by auto.
  assert (e3 = e) as -> by congruence.
  apply bind_inv in H as (u1 & s4 & H4 & H).
  apply assign_where_zero_inv in H4 as (h0 & c0 & h' & Hh0 & Hc0 & Hh' & ->).
  rewrite lookup_insert_ne in Hh0 by auto.
  unfold s1 in Hh0. rewrite lookup_insert_eq in Hh0. injection Hh0 as <-.
  rewrite lookup_insert_eq in Hc0. injection Hc0 as <-.
  apply bind_inv in H as (u2 & s5 & H5 & H).
  apply assign_where_zero_inv in H5 as (c1 & c2 & c' & Hc1 & Hc2 & Hc' & ->).
  rewrite lookup_insert_ne in Hc1 by auto.
  rewrite lookup_insert_eq in Hc1. injection Hc1 as <-.
  rewrite lookup_insert_ne in Hc2 by auto.
  rewrite lookup_insert_eq in Hc2. injection Hc2 as <-.
  apply bind_inv in H as (h1 & s6 & Hh1 & H). apply read_inv in Hh1 as [Hh1 ->].
  apply bind_inv in H as (c3 & s6 & Hc3 & H). apply read_inv in Hc3 as [Hc3 ->].
  apply bind_inv in H as (avg & s6 & Havg & H). apply lift_inv in Havg as [Havg ->].
  unfold ret in H. injection H as <- <-.
  rewrite lookup_insert_ne in Hh1 by auto.
  rewrite lookup_insert_eq in Hh1. injection Hh1 as <-.
  rewrite lookup_insert_eq in Hc3. injection Hc3 as <-.
  exists a, w, e, h, c, h', c', avg.
  repeat split; auto.
  exists hist, counts. repeat split; auto.
Qed.

Lemma divide_arrays_length (a b : list Q) (out : list fq) :
  length a = length b -> divide_arrays a b = Some out -> length out = length a.
Proof.
  intros Hlen. unfold divide_arrays. rewrite broadcast2_same_length by exact Hlen.
  intros [= <-]. apply zip_with_length, Hlen.
Qed.

(** *** What the call leaves untouched *)

(** C9.  A call of [make_angular_average] that returns leaves every array
    that existed before it as it was, among them its [angles], [weight] and
    [bin_edges] arguments and the shared default [bin_edges]: the two
    assignments in place write to the two histograms, which are new
    arrays. *)
Theorem make_angular_average_inputs_unchanged
        (default_edges angles weight : ref) (bin_edges : option ref)
        (s s' : store) (r : list fq * list Q) :
  call_make_angular_average default_edges angles weight bin_edges s
  = Some (r, s') ->
  (forall l a, s !! l = Some a -> s' !! l = Some a) /\
  s' !! angles = s !! angles /\
  s' !! weight = s !! weight /\
  s' !! default default_edges bin_edges = s !! default default_edges bin_edges /\
  (forall l, s' !! l <> s !! l -> s !! l = None).
Proof.
  unfold call_make_angular_average. intros H.
  apply make_angular_average_inv in H
    as (a & w & e & h & c & h' & c' & avg & Ha & Hw & He & _ & _ & _ & _ & _ & _
        & hist & counts & Hhist & Hcounts & ->).
  assert (forall l x, s !! l = Some x ->
            <[counts:=c']> (<[hist:=h']> (<[counts:=c]> (<[hist:=h]> s))) !! l
            = Some x) as Hframe.
  { intros l x Hl.
    assert (l <> hist) as Hlh by (subst hist; eapply lookup_fresh_ne; eauto).
    assert (l <> counts) as Hlc.
    { subst counts. apply (lookup_fresh_ne (<[hist:=h]> s) l x).
      rewrite lookup_insert_ne by auto. exact Hl. }
    rewrite lookup_insert_ne by auto. rewrite lookup_insert_ne by auto.
    rewrite lookup_insert_ne by auto. rewrite lookup_insert_ne by auto.
    exact Hl. }
  split; [exact Hframe|].
  split; [rewrite Ha; apply Hframe, Ha|].
  split; [rewrite Hw; apply Hframe, Hw|].
  split; [rewrite He; apply Hframe, He|].
  intros l Hne. destruct (s !! l) as [x|] eqn:Hl; [|reflexivity].
  exfalso. apply Hne. apply Hframe, Hl.
Qed.

(** *** The averages *)

(** C2.  In the array [make_angular_average] returns, every bin with no
    sample holds exactly 1: there both histograms are set to 1 before the
    division.  No entry of the result comes from a division by zero. *)
Theorem make_angular_average_empty_bins
        (angles weight bin_edges : ref) (s s' : store)
        (avg : list fq) (centers a e : list Q) :
  make_angular_average angles weight bin_edges s = Some ((avg, centers), s') ->
  s !! angles = Some a -> s !! bin_edges = Some e ->
  length avg = nbins e /\
  (forall i v, nth_error avg i = Some v -> exists q, v = Some q) /\
  (forall i, (i < nbins e)%nat -> bin_count e a i = 0%nat ->
             nth_error avg i = Some (Some 1)) /\
  (exists hist counts h' c',
      s' !! hist = Some h' /\ s' !! counts = Some c' /\
      divide_arrays h' c' = Some avg /\
      forall i, (i < nbins e)%nat -> bin_count e a i = 0%nat ->
                nth_error h' i = Some 1 /\ nth_error c' i = Some 1).
Proof.
  intros H Ha He.
  apply make_angular_average_inv in H
    as (a0 & w & e0 & h & c & h' & c' & avg0 & Ha0 & Hw & He0 & Hh & Hc & Hh' & Hc'
        & Hd & Hr & hist & counts & Hhist & Hcounts & ->).
  assert (a0 = a) as -> by congruence. assert (e0 = e) as -> by congruence.
  injection Hr as -> _.
  pose proof (histogram_length _ _ _ _ Hh) as Lh.
  pose proof (histogram_length _ _ _ _ Hc) as Lc.
  pose proof (masked_assign_length _ _ _ _ Hh') as Lh'.
  pose proof (masked_assign_length _ _ _ _ Hc') as Lc'.
  assert (length avg0 = nbins e) as Lavg.
  { rewrite (divide_arrays_length h' c' avg0) by (try exact Hd; congruence).
    congruence. }
  assert (forall i, (i < nbins e)%nat -> bin_count e a i = 0%nat ->
                    Qeq_bool (bin_total e (map (fun x => (x, 1)) a) i) 0 = true)
    as Hzero.
  { intros i Hi H0. apply Qeq_bool_iff. rewrite bin_total_count, H0. reflexivity. }
  split; [exact Lavg|]. split; [|split].
  - intros i v Hv.
    assert (i < nbins e)%nat as Hi
        by (rewrite <- Lavg; apply nth_error_Some; congruence).
    destruct (average_nth _ _ _ _ _ _ _ _ i Hh Hc Hh' Hc' Hd Hi) as (cnt & _ & Hn).
    rewrite Hn in Hv. injection Hv as <-.
    destruct (Qeq_bool cnt 0); eauto.
  - intros i Hi H0.
    destruct (average_nth _ _ _ _ _ _ _ _ i Hh Hc Hh' Hc' Hd Hi) as (cnt & Hcnt & Hn).
    rewrite Hn. rewrite H0 in Hcnt.
    rewrite (Qeq_eq_bool cnt 0) by exact Hcnt. reflexivity.
  - exists hist, counts, h', c'.
    assert (hist <> counts) as Hhc.
    { subst counts. apply (lookup_fresh_ne (<[hist:=h]> s) hist h).
      apply lookup_insert_eq. }
    split; [rewrite lookup_insert_ne by auto; apply lookup_insert_eq|].
    split; [apply lookup_insert_eq|].
    split; [exact Hd|].
    intros i Hi H0.
    pose proof (histogram_nth _ _ None _ _ i Hc eq_refl Hi) as Hci.
    assert (samples a (Some w) = Some (combine a w)) as Hs.
    { unfold histogram in Hh. destruct (valid_bins e); [|discriminate].
      destruct (samples a (Some w)) as [smp|] eqn:Es; [|discriminate].
      destruct (samples_weighted _ _ _ Es) as [-> _]. reflexivity. }
    pose proof (histogram_nth _ _ _ _ _ i Hh Hs Hi) as Hhi.
    rewrite (masked_assign_nth _ _ _ _ _ _ _ Hh' Hhi Hci).
    rewrite (masked_assign_nth _ _ _ _ _ _ _ Hc' Hci Hci).
    rewrite (Hzero i Hi H0). auto.
Qed.

(** C6.  For a bin that holds at least one sample the returned value is the
    sum of the weights of the samples of the bin divided by their number,
    and [bin_centers[i]] is the mean of [bin_edges[i]] and
    [bin_edges[i+1]], bin by bin. *)
Theorem make_angular_average_bin_mean
        (angles weight bin_edges : ref) (s s' : store)
        (avg : list fq) (centers a w e : list Q) :
  make_angular_average angles weight bin_edges s = Some ((avg, centers), s') ->
  s !! angles = Some a -> s !! weight = Some w -> s !! bin_edges = Some e ->
  (forall i, (0 < bin_count e a i)%nat ->
     exists cnt,
       cnt == inject_Z (Z.of_nat (bin_count e a i)) /\
       nth_error avg i = Some (Some (bin_weight e a w i / cnt))) /\
  length centers = (length e - 1)%nat /\
  (forall i lo hi,
     nth_error e i = Some lo -> nth_error e (S i) = Some hi ->
     exists c, nth_error centers i = Some c /\ c == (lo + hi) / 2).
Proof.
  intros H Ha Hw He.
  apply make_angular_average_inv in H
    as (a0 & w0 & e0 & h & c & h' & c' & avg0 & Ha0 & Hw0 & He0 & Hh & Hc & Hh' & Hc'
        & Hd & Hr & _).
  assert (a0 = a) as -> by congruence. assert (e0 = e) as -> by congruence.
  assert (w0 = w) as -> by congruence.
  injection Hr as -> ->.
  split; [|split].
  - intros i Hpos.
    pose proof (bin_count_index _ _ _ Hpos) as Hi.
    destruct (average_nth _ _ _ _ _ _ _ _ i Hh Hc Hh' Hc' Hd Hi) as (cnt & Hcnt & Hn).
    exists cnt. split; [exact Hcnt|].
    rewrite Hn. rewrite (Qeq_bool_false cnt 0); [reflexivity|].
    rewrite Hcnt. intros E.
    assert (Z.of_nat (bin_count e a i) = 0%Z) as Hz.
    { unfold Qeq, inject_Z in E. simpl in E. lia. }
    lia.
  - unfold average_bin_centers. rewrite length_map, length_seq. reflexivity.
  - intros i lo hi. apply average_bin_centers_nth.
Qed.

(** *** A run *)

Lemma example_run :
  option_map fst (make_angular_average 1 2 3 example_store)
  = Some ([Some (5 / 1); Some 1], [(0 + (1 + 0)) / 2; (1 + (3 + 0)) / 2]).
Proof. vm_compute. reflexivity. Qed.

Lemma make_angular_average_inputs_unchanged_witness :
  exists r s',
    make_angular_average 1 2 3 example_store = Some (r, s') /\
    s' !! 1%positive = Some [1 # 2] /\
    s' !! 4%positive = Some default_bin_edges.
Proof.
  destruct (make_angular_average 1 2 3 example_store) as [[r s']|] eqn:E;
    [|vm_compute in E; discriminate].
  exists r, s'. split; [reflexivity|].
  destruct (make_angular_average_inputs_unchanged 4 1 2 (Some 3%positive)
              example_store s' r E) as (Hframe & _).
  split; apply Hframe; reflexivity.
Defined.

Lemma make_angular_average_empty_bins_witness :
  exists avg centers s',
    make_angular_average 1 2 3 example_store = Some ((avg, centers), s') /\
    bin_count [0; 1; 3] [1 # 2] 1 = 0%nat /\
    nth_error avg 1 = Some (Some 1).
Proof.
  destruct (make_angular_average 1 2 3 example_store) as [[[avg centers] s']|] eqn:E;
    [|vm_compute in E; discriminate].
  exists avg, centers, s'. split; [reflexivity|]. split; [reflexivity|].
  destruct (make_angular_average_empty_bins 1 2 3 example_store s' avg centers
              [1 # 2] [0; 1; 3] E eq_refl eq_refl) as (_ & _ & Hone & _).
  apply Hone; [unfold nbins; simpl; lia | reflexivity].
Defined.

Lemma make_angular_average_bin_mean_witness :
  exists avg centers s' cnt,
    make_angular_average 1 2 3 example_store = Some ((avg, centers), s') /\
    cnt == 1 /\
    nth_error avg 0 = Some (Some (bin_weight [0; 1; 3] [1 # 2] [5] 0 / cnt)).
Proof.
  destruct (make_angular_average 1 2 3 example_store) as [[[avg centers] s']|] eqn:E;
    [|vm_compute in E; discriminate].
  destruct (make_angular_average_bin_mean 1 2 3 example_store s' avg centers
              [1 # 2] [5] [0; 1; 3] E eq_refl eq_refl eq_refl) as (Hmean & _).
  destruct (Hmean 0%nat) as (cnt & Hcnt & Hn); [vm_compute; lia|].
  exists avg, centers, s', cnt. split; [reflexivity|].
  split; [exact Hcnt | exact Hn].
Defined.

End StoreProps.

(** ** cartesian_to_polar: the formulas and the range of theta *)

Module Polar.
Import Broadcast BroadcastProps.
Local Open Scope R_scope.

(** C4, as the code has it.  On broadcastable arrays [cartesian_to_polar]
    returns, element by element, [r = sqrt(x^2 + y^2)] and
    [theta = arctan2d(y, x) mod 360], which differs from [arctan2d(y, x)] by
    a multiple of 360; in exact arithmetic [0 <= theta < 360].  Computed in
    binary64, [theta] is a double whose value lies in the closed range
    [[0, 360]], whatever finite angle the arctangent returns. *)
Theorem cartesian_to_polar_range :
  (forall (x y r theta : list R),
      Exact.cartesian_to_polar_array x y = Some (r, theta) ->
      length r = length theta /\
      forall i t,
        nth_error theta i = Some t ->
        exists a b,
          bget x i = Some a /\ bget y i = Some b /\
          nth_error r i = Some (sqrt (a ^ 2 + b ^ 2)) /\
          t = Exact.np_mod (Exact.arctan2d b a) 360 /\
          (exists k : Z, t = Exact.arctan2d b a - IZR k * 360) /\
          0 <= t < 360) /\
  (forall (arctan2 : B64.float -> B64.float -> B64.float) (x y : B64.float),
      B64.is_finite (B64.arctan2d arctan2 y x) = true ->
      B64.is_finite (snd (B64.cartesian_to_polar arctan2 x y)) = true /\
      0 <= B64.to_R (snd (B64.cartesian_to_polar arctan2 x y)) <= 360).
Proof.
  split.
  - intros x y r theta. unfold Exact.cartesian_to_polar_array.
    destruct (broadcast2 Exact.cartesian_to_polar x y) as [out|] eqn:E;
      [|discriminate].
    intros [= <- <-]. split; [rewrite !length_map; reflexivity|].
    intros i t Ht.
    destruct (nth_error out i) as [p|] eqn:Ep.
    + rewrite (map_nth_error snd i out Ep) in Ht. injection Ht as <-.
      destruct (broadcast2_nth _ _ _ _ _ _ E Ep) as (a & b & Ha & Hb & ->).
      exists a, b.
      destruct (ExactProps.cartesian_to_polar_exact a b) as (Hr & Ht & Hk & Hrange).
      repeat split; auto; try apply Hrange.
      rewrite (map_nth_error fst i out Ep). reflexivity.
    + apply nth_error_None in Ep.
      assert (nth_error (map snd out) i = None) as Hn
          by (apply nth_error_None; rewrite length_map; exact Ep).
      congruence.
  - exact B64Props.cartesian_to_polar_closed_range.
Qed.

Lemma cartesian_to_polar_range_witness :
  (exists t, nth_error [snd (Exact.cartesian_to_polar 0 0)] 0 = Some t /\
             0 <= t < 360) /\
  0 <= B64.to_R
         (snd (B64.cartesian_to_polar (fun y _ => y) B64.one B64.tiny_negative))
    <= 360.
Proof.
  destruct cartesian_to_polar_range as [Hexact Hb64].
  split.
  - destruct (Hexact [0] [0] [fst (Exact.cartesian_to_polar 0 0)]
                [snd (Exact.cartesian_to_polar 0 0)] eq_refl) as [_ H].
    destruct (H 0%nat (snd (Exact.cartesian_to_polar 0 0)) eq_refl)
      as (a & b & _ & _ & _ & _ & _ & Hrange).
    eexists. split; [reflexivity | exact Hrange].
  - apply (Hb64 (fun y _ => y) B64.one B64.tiny_negative).
    vm_compute. reflexivity.
Defined.

(** C10.  At the origin [cartesian_to_polar(0, 0)] returns [r = 0] and
    [theta = 0], in exact arithmetic and in binary64 alike, the two-argument
    arctangent of [(0, 0)] being 0; no NaN, no error. *)
Theorem cartesian_to_polar_origin :
  Exact.cartesian_to_polar 0 0 = (0, 0) /\
  (forall arctan2 : B64.float -> B64.float -> B64.float,
      arctan2 B64.zero B64.zero = B64.zero ->
      B64.cartesian_to_polar arctan2 B64.zero B64.zero
      = (B64.zero, B64.zero)).
Proof.
  split.
  - exact ExactProps.cartesian_to_polar_origin_exact.
  - exact B64Props.cartesian_to_polar_origin_b64.
Qed.

Lemma cartesian_to_polar_origin_witness :
  B64.cartesian_to_polar (fun _ _ => B64.zero) B64.zero B64.zero
  = (B64.zero, B64.zero).
Proof.
  destruct cartesian_to_polar_origin as [_ H].
  apply (H (fun _ _ => B64.zero)). reflexivity.
Defined.

End Polar.

(** ** The trigonometric functions in degrees and their inverses *)

Module TrigProps.
Import Exact ExactProps.
Local Open Scope R_scope.

Lemma tan_plus_PI (x : R) : tan (x + PI) = tan x.
Proof.
  unfold tan. rewrite neg_sin, neg_cos.
  unfold Rdiv. rewrite Rinv_opp. ring.
Qed.

Lemma tan_period_Z (x : R) (k : Z) : tan (x + IZR k * PI) = tan x.
Proof.
  assert (forall n : nat, forall y, tan (y + INR n * PI) = tan y) as Hnat.
  { induction n as [|n IH]; intros y.
    - simpl. f_equal. ring.
    - rewrite S_INR.
      replace (y + (INR n + 1) * PI) with ((y + INR n * PI) + PI) by ring.
      rewrite tan_plus_PI. apply IH. }
  destruct k as [|p|p].
  - f_equal. simpl. ring.
  - rewrite <- (Hnat (Pos.to_nat p) x), INR_IZR_INZ, positive_nat_Z. reflexivity.
  - rewrite <- (Hnat (Pos.to_nat p) (x + IZR (Z.neg p) * PI)).
    rewrite INR_IZR_INZ, positive_nat_Z. f_equal.
    change (Z.neg p) with (- Z.pos p)%Z. rewrite opp_IZR. ring.
Qed.

Lemma radians_lt (a b : R) : a < b -> radians a < radians b.
Proof.
  intros H. unfold radians. apply Rmult_lt_compat_r; [|exact H].
  apply Rdiv_lt_0_compat; [exact PI_pos | lra].
Qed.

Lemma radians_le (a b : R) : a <= b -> radians a <= radians b.
Proof.
  intros H. unfold radians. apply Rmult_le_compat_r; [|exact H].
  apply Rlt_le, Rdiv_lt_0_compat; [exact PI_pos | lra].
Qed.

Lemma radians_90 : radians 90 = PI / 2.
Proof. unfold radians. field. Qed.

Lemma radians_neg90 : radians (-90) = - (PI / 2).
Proof. unfold radians. field. Qed.

Lemma degrees_half_PI : degrees (PI / 2) = 90.
Proof. unfold degrees. field. exact PI_neq0'. Qed.

Lemma degrees_neg_half_PI : degrees (- (PI / 2)) = -90.
Proof. unfold degrees. field. exact PI_neq0'. Qed.

(** The inverse tangent undoes the tangent up to the half turns of its
    period: [arctand(tand(x))] is the angle of [(-90, 90)] that differs from
    [x] by a multiple of 180. *)
Theorem arctand_tand (x : R) (k : Z) :
  -90 < x - 180 * IZR k < 90 ->
  arctand (tand x) = x - 180 * IZR k.
Proof.
  intros [Hlo Hhi]. unfold arctand, tand.
  replace (radians x) with (radians (x - 180 * IZR k) + IZR k * PI)
    by (unfold radians; field).
  rewrite tan_period_Z, atan_tan.
  - apply degrees_radians.
  - pose proof (radians_lt _ _ Hlo) as H1. pose proof (radians_lt _ _ Hhi) as H2.
    rewrite radians_neg90 in H1. rewrite radians_90 in H2. lra.
Qed.

Lemma arctand_tand_witness :
  arctand (tand 200) = 200 - 180 * IZR 1 /\ arctand (tand 30) = 30 - 180 * IZR 0.
Proof.
  split.
  - apply (arctand_tand 200 1). lra.
  - apply (arctand_tand 30 0). lra.
Defined.

(** Over the reals the tangent undoes the inverse tangent, whose values lie
    strictly between -90 and 90.  In binary64 the bound is not strict: where
    the C library's arctangent returns the double nearest to pi / 2, as it
    does for a large argument, [arctand] returns exactly 90. *)
Theorem tand_arctand :
  (forall x : R, tand (arctand x) = x /\ -90 < arctand x < 90) /\
  (forall (arctan : spec_float -> spec_float) (x : spec_float),
      arctan x = B64.half_pi -> B64.arctand arctan x = B64.f90).
Proof.
  split.
  - intros x. unfold tand, arctand. rewrite radians_degrees. split.
    + apply tan_atan.
    + pose proof (atan_bound x) as Hb.
      rewrite <- degrees_neg_half_PI, <- degrees_half_PI.
      split; apply degrees_lt; lra.
  - intros arctan x H. unfold B64.arctand. rewrite H.
    vm_compute. reflexivity.
Qed.

Lemma tand_arctand_witness :
  B64.arctand (fun _ => B64.half_pi) (B64.of_Z (10 ^ 17)) = B64.f90.
Proof.
  destruct tand_arctand as [_ H].
  apply (H (fun _ => B64.half_pi) (B64.of_Z (10 ^ 17))). reflexivity.
Defined.

(** [arcsind] is defined on [[-1, 1]] and NaN outside; where defined its
    value lies in [[-90, 90]] and has the sine it was given. *)
Theorem arcsind_domain (x : R) :
  (-1 <= x <= 1 ->
   exists d, arcsind x = Some d /\ -90 <= d <= 90 /\ sind d = x) /\
  (x < -1 \/ 1 < x -> arcsind x = None).
Proof.
  unfold arcsind, np_arcsin. split.
  - intros [Hlo Hhi].
    destruct (Rle_dec (-1) x) as [_|H]; [|lra].
    destruct (Rle_dec x 1) as [_|H]; [|lra].
    exists (degrees (asin x)). split; [reflexivity|].
    destruct (asin_bound x) as [Hb1 Hb2].
    split.
    + rewrite <- degrees_neg_half_PI, <- degrees_half_PI.
      split; apply degrees_le; assumption.
    + unfold sind. rewrite radians_degrees. apply sin_asin. lra.
  - intros [H|H].
    + destruct (Rle_dec (-1) x) as [H'|_]; [lra|reflexivity].
    + destruct (Rle_dec (-1) x) as [_|_]; [|reflexivity].
      destruct (Rle_dec x 1) as [H'|_]; [lra|reflexivity].
Qed.

Lemma arcsind_domain_witness :
  (exists d, arcsind (1 / 2) = Some d /\ -90 <= d <= 90 /\ sind d = 1 / 2) /\
  arcsind 2 = None.
Proof.
  split.
  - apply (arcsind_domain (1 / 2)). lra.
  - apply (arcsind_domain 2). lra.
Defined.





End TrigProps.

(** ** More on the polar angle *)

Module AngleProps.
Import Exact ExactProps TrigProps.
Local Open Scope R_scope.

(** The arctangent of a point does not change when the point moves along
    its ray. *)
Lemma arctan2_scale (k y x : R) :
  0 < k -> arctan2 (k * y) (k * x) = arctan2 y x.
Proof.
  intros Hk. unfold arctan2.
  destruct (Rlt_dec 0 x) as [Hx|Hx].
  - destruct (Rlt_dec 0 (k * x)) as [_|H]; [|nra].
    f_equal. field. lra.
  - destruct (Rlt_dec 0 (k * x)) as [H|_]; [nra|].
    destruct (Rlt_dec x 0) as [Hx'|Hx'].
    + destruct (Rlt_dec (k * x) 0) as [_|H]; [|nra].
      assert (k * y / (k * x) = y / x) as -> by (field; lra).
      destruct (Rle_dec 0 y) as [Hy|Hy].
      * destruct (Rle_dec 0 (k * y)) as [_|H]; [reflexivity|nra].
      * destruct (Rle_dec 0 (k * y)) as [H|_]; [nra|reflexivity].
    + destruct (Rlt_dec (k * x) 0) as [H|_]; [nra|].
      destruct (Rlt_dec 0 y) as [Hy|Hy].
      * destruct (Rlt_dec 0 (k * y)) as [_|H]; [reflexivity|nra].
      * destruct (Rlt_dec 0 (k * y)) as [H|_]; [nra|].
        destruct (Rlt_dec y 0) as [Hy'|Hy'].
        -- destruct (Rlt_dec (k * y) 0) as [_|H]; [reflexivity|nra].
        -- destruct (Rlt_dec (k * y) 0) as [H|_]; [nra|reflexivity].
Qed.

Lemma sin_neg_interval (a : R) : - PI < a < 0 -> sin a < 0.
Proof.
  intros [H1 H2]. replace a with (- (- a)) by ring. rewrite sin_neg.
  assert (0 < sin (- a)) by (apply sin_gt_0; lra). lra.
Qed.

(** An angle of [(-pi, pi]] is determined by its cosine and its sine. *)
Lemma angle_unique (a b : R) :
  - PI < a <= PI -> - PI < b <= PI ->
  cos a = cos b -> sin a = sin b -> a = b.
Proof.
  intros Ha Hb Hc Hs.
  destruct (Rle_dec 0 a) as [Ha0|Ha0].
  - assert (0 <= sin a) as Hsa by (apply sin_ge_0; lra).
    destruct (Rle_dec 0 b) as [Hb0|Hb0].
    + apply cos_inj; lra.
    + pose proof (sin_neg_interval b ltac:(lra)). lra.
  - pose proof (sin_neg_interval a ltac:(lra)) as Hsa.
    destruct (Rle_dec 0 b) as [Hb0|Hb0].
    + assert (0 <= sin b) by (apply sin_ge_0; lra). lra.
    + assert (- a = - b) as E.
      { apply cos_inj; try lra. rewrite !cos_neg. exact Hc. }
      lra.
Qed.

Lemma sqrt_unit_circle (t : R) : sqrt (cos t ^ 2 + sin t ^ 2) = 1.
Proof.
  replace (cos t ^ 2 + sin t ^ 2) with 1.
  - apply sqrt_1.
  - pose proof (sin2_cos2 t) as H. unfold Rsqr in H. lra.
Qed.

Lemma arctan2_sin_cos (a : R) :
  - PI < a <= PI -> arctan2 (sin a) (cos a) = a.
Proof.
  intros Ha.
  destruct (polar_of_arctan2 (cos a) (sin a)) as [Hc Hs].
  rewrite sqrt_unit_circle in Hc, Hs.
  apply angle_unique.
  - apply arctan2_range.
  - exact Ha.
  - lra.
  - lra.
Qed.

Lemma radians_half_turn (t : R) :
  -180 < t <= 180 -> - PI < radians t <= PI.
Proof.
  intros [Hlo Hhi].
  pose proof (radians_lt _ _ Hlo) as H1. pose proof (radians_le _ _ Hhi) as H2.
  assert (radians (-180) = - PI) as E1 by (unfold radians; field).
  assert (radians 180 = PI) as E2 by (unfold radians; field).
  lra.
Qed.

Lemma arctan2_polar_point (r a : R) :
  0 < r -> - PI < a <= PI -> arctan2 (r * sin a) (r * cos a) = a.
Proof.
  intros Hr Ha. rewrite arctan2_scale by exact Hr. apply arctan2_sin_cos, Ha.
Qed.



Lemma np_mod_negative_turn (a : R) :
  -360 <= a < 0 -> np_mod a 360 = a + 360.
Proof.
  intros [H1 H2]. unfold np_mod.
  assert (floor (a / 360) = (-1)%Z) as ->.
  { symmetry. apply Int_part_spec. simpl. lra. }
  simpl. lra.
Qed.

Lemma hypot_of_polar (r t : R) :
  0 <= r -> sqrt ((r * cos t) ^ 2 + (r * sin t) ^ 2) = r.
Proof.
  intros Hr.
  replace ((r * cos t) ^ 2 + (r * sin t) ^ 2) with (r ^ 2).
  - apply sqrt_pow2, Hr.
  - pose proof (sin2_cos2 t) as H. unfold Rsqr in H. nra.
Qed.

(** From polar to cartesian and back: for a positive radius and an angle of
    [[0, 360)], [cartesian_to_polar] gives back the radius and the angle. *)
Theorem cartesian_to_polar_of_polar (r t : R) :
  0 < r -> 0 <= t < 360 ->
  cartesian_to_polar (r * cosd t) (r * sind t) = (r, t).
Proof.
  intros Hr [Hlo Hhi]. unfold cartesian_to_polar. f_equal.
  - unfold cosd, sind. apply hypot_of_polar. lra.
  - assert (forall u, -180 < u <= 180 ->
                      arctan2d (r * sind u) (r * cosd u) = u) as Hangle.
    { intros u Hu. unfold arctan2d, sind, cosd.
      rewrite arctan2_polar_point by (try apply radians_half_turn; assumption).
      apply degrees_radians. }
    destruct (Rle_dec t 180) as [Ht|Ht].
    + rewrite Hangle by lra. apply np_mod_small. lra.
    + assert (sind t = sind (t - 360) /\ cosd t = cosd (t - 360)) as [-> ->].
      { unfold sind, cosd.
        replace (radians (t - 360)) with (radians t + 2 * IZR (-1) * PI)
          by (unfold radians; field).
        rewrite sin_period_Z, cos_period_Z. split; reflexivity. }
      rewrite Hangle by lra.
      rewrite np_mod_negative_turn by lra. ring.
Qed.

Lemma cartesian_to_polar_of_polar_witness :
  cartesian_to_polar (2 * cosd 300) (2 * sind 300) = (2, 300).
Proof. apply (cartesian_to_polar_of_polar 2 300); lra. Defined.

Lemma hypot_scale (k x y : R) :
  0 <= k -> sqrt ((k * x) ^ 2 + (k * y) ^ 2) = k * sqrt (x ^ 2 + y ^ 2).
Proof.
  intros Hk.
  replace ((k * x) ^ 2 + (k * y) ^ 2) with (k ^ 2 * (x ^ 2 + y ^ 2)) by ring.
  rewrite sqrt_mult by nra. rewrite sqrt_pow2 by exact Hk. reflexivity.
Qed.

Lemma scale_overflow_check :
  forallb (fun k => (fun e =>
                       B64.same_float
                         (B64.sqrt
                            (B64.add
                               (B64.mul (B64.mul (B64.ldexp_Z 1 100)
                                                 (B64.ldexp_Z 1 e))
                                        (B64.mul (B64.ldexp_Z 1 100)
                                                 (B64.ldexp_Z 1 e)))
                               (B64.mul (B64.mul (B64.ldexp_Z 1 100) B64.zero)
                                        (B64.mul (B64.ldexp_Z 1 100) B64.zero))))
                         (S754_infinity false)
                       && B64.same_float
                            (B64.mul (B64.ldexp_Z 1 100)
                               (B64.sqrt
                                  (B64.add
                                     (B64.mul (B64.ldexp_Z 1 e)
                                              (B64.ldexp_Z 1 e))
                                     (B64.mul B64.zero B64.zero))))
                            (B64.ldexp_Z 1 (e + 100)))
                      (412 + Z.of_nat k)%Z)
          (seq 0 100) = true.
Proof. vm_compute. reflexivity. Qed.

(** Over the reals, moving a point along its ray scales the radius and
    keeps the angle.  In binary64 the radius does not follow where a square
    overflows: with [k = 2^100], [x = 2^e] for [412 <= e <= 511] and
    [y = 0], the radius of [(k * x, k * y)] is infinite while [k] times the
    radius of [(x, y)] is the finite [2^(e + 100)]. *)
Theorem cartesian_to_polar_scale :
  (forall k x y : R,
      0 < k ->
      cartesian_to_polar (k * x) (k * y)
      = (k * fst (cartesian_to_polar x y), snd (cartesian_to_polar x y))) /\
  (forall (arctan2 : spec_float -> spec_float -> spec_float) (e : Z),
      (412 <= e <= 511)%Z ->
      fst (B64.cartesian_to_polar arctan2
             (B64.mul (B64.ldexp_Z 1 100) (B64.ldexp_Z 1 e))
             (B64.mul (B64.ldexp_Z 1 100) B64.zero))
      = S754_infinity false /\
      B64.mul (B64.ldexp_Z 1 100)
              (fst (B64.cartesian_to_polar arctan2 (B64.ldexp_Z 1 e) B64.zero))
      = B64.ldexp_Z 1 (e + 100)).
Proof.
  split.
  - intros k x y Hk. unfold cartesian_to_polar, arctan2d; simpl.
    rewrite arctan2_scale by exact Hk.
    f_equal. apply hypot_scale. lra.
  - intros arctan2 e He.
    unfold B64.cartesian_to_polar; cbn [fst].
    pose proof (B64Props.range_check _ 412%Z 100 scale_overflow_check e
                  ltac:(lia)) as H.
    cbv beta in H. apply andb_true_iff in H. destruct H as [H1 H2].
    split; apply B64Props.same_float_eq; assumption.
Qed.

Lemma cartesian_to_polar_scale_witness :
  cartesian_to_polar (2 * 3) (2 * 4)
  = (2 * fst (cartesian_to_polar 3 4), snd (cartesian_to_polar 3 4)) /\
  fst (B64.cartesian_to_polar (fun _ _ => B64.zero)
         (B64.mul (B64.ldexp_Z 1 100) (B64.ldexp_Z 1 500))
         (B64.mul (B64.ldexp_Z 1 100) B64.zero))
  = S754_infinity false.
Proof.
  destruct cartesian_to_polar_scale as [Hexact Hb64].
  split.
  - apply (Hexact 2 3 4). lra.
  - apply (Hb64 (fun _ _ => B64.zero) 500%Z). lia.
Defined.

(** The radius is never negative, it bounds both coordinates, and it is zero
    at the origin only. *)
Theorem cartesian_to_polar_radius (x y : R) :
  0 <= fst (cartesian_to_polar x y) /\
  Rabs x <= fst (cartesian_to_polar x y) /\
  Rabs y <= fst (cartesian_to_polar x y) /\
  (fst (cartesian_to_polar x y) = 0 <-> x = 0 /\ y = 0).
Proof.
  unfold cartesian_to_polar; cbn [fst].
  assert (0 <= x ^ 2 + y ^ 2) as Hpos by nra.
  pose proof (sqrt_pos (x ^ 2 + y ^ 2)) as Hs.
  pose proof (sqrt_sqrt _ Hpos) as Hsq.
  set (r := sqrt (x ^ 2 + y ^ 2)) in *.
  assert (forall a b : R, a ^ 2 <= b * b -> 0 <= b -> Rabs a <= b) as Habs.
  { intros a b H1 H2. apply Rabs_le.
    destruct (Rle_dec (- b) a); destruct (Rle_dec a b); try nra. }
  split; [exact Hs|].
  split; [apply Habs; [nra|exact Hs]|].
  split; [apply Habs; [nra|exact Hs]|].
  split.
  - intros E. rewrite E in Hsq. split; nra.
  - intros [-> ->]. unfold r. replace (0 ^ 2 + 0 ^ 2) with 0 by ring.
    apply sqrt_0.
Qed.

End AngleProps.

(** ** More on vector_average *)

Module VectorProps.
Import Broadcast BroadcastProps Exact ExactProps TrigProps AngleProps.
Local Open Scope R_scope.

Lemma zip_with_app {A B X : Type} (f : A -> B -> X) a1 a2 b1 b2 :
  length a1 = length b1 ->
  zip_with f (a1 ++ a2) (b1 ++ b2) = zip_with f a1 b1 ++ zip_with f a2 b2.
Proof.
  revert b1; induction a1 as [|x a1 IH]; intros [|y b1]; simpl;
    try discriminate; auto.
  intros [= H]. rewrite IH by exact H. reflexivity.
Qed.

Lemma not_nan_app {A : Type} (l1 l2 : list (option A)) :
  not_nan (l1 ++ l2) = not_nan l1 ++ not_nan l2.
Proof. unfold not_nan. apply flat_map_app. Qed.

Lemma not_nan_nil {A : Type} (l : list (option A)) :
  not_nan l = [] <-> Forall (fun o => o = None) l.
Proof.
  induction l as [|[v|] l IH]; simpl.
  - split; auto.
  - split; [discriminate|]. intros H. inversion H; discriminate.
  - rewrite IH. split; intros H; [constructor; auto|inversion H; auto].
Qed.

Lemma not_nan_In {A : Type} (l : list (option A)) (v : A) :
  In v (not_nan l) <-> In (Some v) l.
Proof.
  induction l as [|[w|] l IH]; simpl.
  - tauto.
  - rewrite IH. split; intros [H|H]; auto; left; congruence.
  - rewrite IH. split; [auto|]. intros [H|H]; [discriminate|exact H].
Qed.

Lemma vector_term_none (n a : fl) :
  vector_term n a = None <-> a = None \/ n = None.
Proof.
  destruct n as [n|], a as [a|]; simpl; split; auto; try discriminate.
  intros [H|H]; discriminate.
Qed.

Lemma zip_with_Forall {A B X : Type} (f : A -> B -> X) (P : X -> Prop) a b :
  length a = length b ->
  (Forall P (zip_with f a b) <-> Forall2 (fun x y => P (f x y)) a b).
Proof.
  revert b; induction a as [|x a IH]; intros [|y b]; simpl; try discriminate.
  - intros _. split; constructor.
  - intros [= H]. specialize (IH b H). split; intros HF; inversion HF; subst.
    + constructor; [assumption|]. apply IH. assumption.
    + constructor; [assumption|]. apply IH. assumption.
Qed.

(** A pair that holds a NaN, angle or norm, does not count: the result is
    that of the arrays without it. *)
Theorem vector_average_nan_skipped (a1 a2 n1 n2 : list fl) (a n : fl) :
  length a1 = length n1 -> length a2 = length n2 ->
  a = None \/ n = None ->
  vector_average (a1 ++ a :: a2) (n1 ++ n :: n2)
  = vector_average (a1 ++ a2) (n1 ++ n2).
Proof.
  intros H1 H2 Hnan. unfold vector_average.
  rewrite !broadcast2_same_length
    by (rewrite !List.length_app; simpl; rewrite H1, H2; reflexivity).
  rewrite !zip_with_app by (symmetry; exact H1).
  simpl. apply vector_term_none in Hnan. rewrite Hnan.
  unfold nanmean. rewrite !not_nan_app. reflexivity.
Qed.

Lemma vector_average_nan_skipped_witness :
  vector_average ([Some 10] ++ None :: [Some 30])
                 ([Some 1] ++ Some 5 :: [Some 2])
  = vector_average ([Some 10] ++ [Some 30]) ([Some 1] ++ [Some 2]).
Proof.
  apply (vector_average_nan_skipped
           [Some 10] [Some 30] [Some 1] [Some 2] None (Some 5));
    [reflexivity|reflexivity|left; reflexivity].
Defined.

(** On arrays of one length both results are NaN exactly when every pair
    holds a NaN, which is also the case of empty arrays; no exception is
    raised. *)
Theorem vector_average_nan_result (angles norm : list fl) :
  length angles = length norm ->
  (vector_average angles norm = Some (None, None) <->
   Forall2 (fun n a => a = None \/ n = None) norm angles).
Proof.
  intros Hlen. unfold vector_average.
  rewrite broadcast2_same_length by (symmetry; exact Hlen).
  assert (Forall2 (fun n a => a = None \/ n = None) norm angles
          <-> not_nan (zip_with vector_term norm angles) = []) as ->.
  { rewrite not_nan_nil.
    rewrite (zip_with_Forall vector_term (fun o => o = None))
      by (symmetry; exact Hlen).
    split; intros H; eapply Forall2_impl; try exact H;
      intros n a; apply vector_term_none. }
  unfold nanmean.
  destruct (not_nan (zip_with vector_term norm angles)) as [|z zs]; simpl.
  - split; reflexivity.
  - split; discriminate.
Qed.

Lemma vector_average_nan_result_witness :
  vector_average [None; Some 20] [Some 1; None] = Some (None, None).
Proof.
  destruct (vector_average_nan_result [None; Some 20] [Some 1; None] eq_refl)
    as [_ H].
  apply H. constructor; [left; reflexivity|].
  constructor; [right; reflexivity|]. constructor.
Defined.

Lemma broadcast2_map_l {A A' B X : Type} (f : A' -> B -> X) (g : A -> A') a b :
  broadcast2 f (map g a) b = broadcast2 (fun x y => f (g x) y) a b.
Proof.
  unfold broadcast2. rewrite length_map.
  destruct (Nat.eqb (length a) (length b)).
  - f_equal. revert b. induction a as [|x a IH]; intros [|y b]; simpl; auto.
    rewrite IH. reflexivity.
  - destruct a as [|x0 [|x1 a]]; simpl; try reflexivity.
    destruct b as [|y0 [|y1 b]]; try reflexivity.
    rewrite map_map. reflexivity.
Qed.


Lemma Csum_Cmul (c : C) (l : list C) :
  Csum (map (Cmul c) l) = Cmul c (Csum l).
Proof.
  induction l as [|z l IH]; simpl.
  - unfold Cmul, Cre, Cim; simpl. f_equal; ring.
  - rewrite IH. unfold Cadd, Cmul, Cre, Cim; simpl. f_equal; ring.
Qed.

Lemma INR_length_cons_pos {A : Type} (z : A) (zs : list A) :
  0 < INR (length (z :: zs)).
Proof. apply lt_0_INR. simpl. lia. Qed.

(** The NaN-skipping mean is linear. *)
Lemma nanmean_Cmul (c : C) (l : list (option C)) :
  nanmean (map (option_map (Cmul c)) l) = option_map (Cmul c) (nanmean l).
Proof.
  unfold nanmean. rewrite not_nan_map.
  destruct (not_nan l) as [|z zs]; [reflexivity|].
  pose proof (INR_length_cons_pos z zs) as HN.
  remember (z :: zs) as vals eqn:Hv.
  destruct (map (Cmul c) vals) as [|w ws] eqn:Em; [subst vals; discriminate|].
  rewrite <- Em, Csum_Cmul, length_map. subst vals. cbn [option_map].
  f_equal. unfold Cdiv_real, Cmul, Cre, Cim; cbn [fst snd].
  f_equal; field; lra.
Qed.

Lemma vector_term_scale (k : R) (n a : fl) :
  vector_term (option_map (Rmult k) n) a
  = option_map (Cmul (Cof_real k)) (vector_term n a).
Proof.
  destruct n as [n|], a as [a|]; try reflexivity.
  cbn [option_map vector_term].
  rewrite !vector_term_polar. unfold Cmul, Cof_real, Cre, Cim; cbn [fst snd].
  f_equal. f_equal; ring.
Qed.

Lemma Cangle_scale (k : R) (z : C) :
  0 < k -> Cangle (Cmul (Cof_real k) z) = Cangle z.
Proof.
  intros Hk. unfold Cangle, Cmul, Cof_real, Cre, Cim; cbn [fst snd].
  replace (k * snd z + 0 * fst z) with (k * snd z) by ring.
  replace (k * fst z - 0 * snd z) with (k * fst z) by ring.
  apply arctan2_scale, Hk.
Qed.

Lemma Cabs_scale (k : R) (z : C) :
  0 <= k -> Cabs (Cmul (Cof_real k) z) = k * Cabs z.
Proof.
  intros Hk. unfold Cabs, Cmul, Cof_real, Cre, Cim; cbn [fst snd].
  replace (k * snd z + 0 * fst z) with (k * snd z) by ring.
  replace (k * fst z - 0 * snd z) with (k * fst z) by ring.
  apply hypot_scale, Hk.
Qed.

(** Over the reals (no rounding, no overflow), multiplying every norm by one
    positive factor multiplies the mean norm by it and leaves the mean angle
    as it is. *)
Theorem vector_average_scale_norm (k : R) (angles norm : list fl) :
  0 < k ->
  vector_average angles (map (option_map (Rmult k)) norm)
  = option_map (fun r => (fst r, option_map (Rmult k) (snd r)))
               (vector_average angles norm).
Proof.
  intros Hk. unfold vector_average.
  rewrite broadcast2_map_l.
  rewrite (broadcast2_ext _
             (fun n a => option_map (Cmul (Cof_real k)) (vector_term n a)))
    by (intros n a; apply vector_term_scale).
  rewrite broadcast2_map.
  destruct (broadcast2 vector_term norm angles) as [terms|]; [|reflexivity].
  cbn [option_map fst snd]. rewrite nanmean_Cmul.
  destruct (nanmean terms) as [z|]; [|reflexivity].
  cbn [option_map]. rewrite Cangle_scale by exact Hk.
  rewrite Cabs_scale by lra. reflexivity.
Qed.

Lemma vector_average_scale_norm_witness :
  vector_average [Some 359; Some 1]
                 (map (option_map (Rmult 3)) [Some 1; Some 1])
  = Some (Some 0, Some (3 * cosd 1)).
Proof.
  rewrite (vector_average_scale_norm 3 [Some 359; Some 1] [Some 1; Some 1])
    by lra.
  rewrite vector_average_359_1. reflexivity.
Defined.








(** *** The mean norm is bounded by the norms *)

Lemma Cabs_nonneg (z : C) : 0 <= Cabs z.
Proof. apply sqrt_pos. Qed.

Lemma Cabs_sqr (z : C) : Cabs z * Cabs z = Cre z ^ 2 + Cim z ^ 2.
Proof. apply sqrt_sqrt. nra. Qed.

Lemma Cabs_triangle (a b : C) : Cabs (Cadd a b) <= Cabs a + Cabs b.
Proof.
  destruct a as [a1 a2], b as [b1 b2].
  pose proof (Cabs_nonneg (a1, a2)) as Ha.
  pose proof (Cabs_nonneg (b1, b2)) as Hb.
  pose proof (Cabs_nonneg (Cadd (a1, a2) (b1, b2))) as Hab.
  pose proof (Cabs_sqr (a1, a2)) as Sa. pose proof (Cabs_sqr (b1, b2)) as Sb.
  pose proof (Cabs_sqr (Cadd (a1, a2) (b1, b2))) as Sab.
  set (p := Cabs (a1, a2)) in *. set (q := Cabs (b1, b2)) in *.
  set (s := Cabs (Cadd (a1, a2) (b1, b2))) in *.
  unfold Cadd, Cre, Cim in Sa, Sb, Sab. cbn [fst snd] in Sa, Sb, Sab.
  destruct (Rle_dec s (p + q)) as [H|H]; [exact H|exfalso].
  assert (p + q < s) as Hlt by lra.
  assert ((p + q) * (p + q) < s * s) as Hsq by nra.
  assert (p * q < a1 * b1 + a2 * b2) as Hdot by nra.
  assert (0 <= p * q) as Hpq by nra.
  assert ((p * q) * (p * q) < (a1 * b1 + a2 * b2) * (a1 * b1 + a2 * b2))
    as Hcs by (apply Rmult_le_0_lt_compat; lra).
  assert ((p * q) * (p * q) = (a1 ^ 2 + a2 ^ 2) * (b1 ^ 2 + b2 ^ 2)) as E.
  { rewrite <- Sa, <- Sb. ring. }
  pose proof (Rle_0_sqr (a1 * b2 - a2 * b1)) as Hdet. unfold Rsqr in Hdet.
  rewrite E in Hcs. lra.
Qed.

Lemma Cabs_Csum_le (B : R) (l : list C) :
  Forall (fun z => Cabs z <= B) l -> Cabs (Csum l) <= INR (length l) * B.
Proof.
  induction 1 as [|z l Hz Hl IH].
  - simpl. unfold Cabs, Cre, Cim; simpl.
    replace (0 * (0 * 1) + 0 * (0 * 1)) with 0 by ring. rewrite sqrt_0. lra.
  - change (Csum (z :: l)) with (Cadd z (Csum l)).
    change (length (z :: l)) with (S (length l)). rewrite S_INR.
    pose proof (Cabs_triangle z (Csum l)). lra.
Qed.

Lemma Cabs_div_real (z : C) (n : R) :
  0 < n -> Cabs (Cdiv_real z n) = Cabs z / n.
Proof.
  intros Hn. unfold Cabs, Cdiv_real, Cre, Cim; cbn [fst snd].
  replace ((fst z / n) ^ 2 + (snd z / n) ^ 2)
    with ((/ n * fst z) ^ 2 + (/ n * snd z) ^ 2) by (field; lra).
  rewrite hypot_scale.
  - field. lra.
  - left. apply Rinv_0_lt_compat, Hn.
Qed.

Lemma Cabs_polar (n a : R) : Cabs (n * cos a, n * sin a) = Rabs n.
Proof.
  unfold Cabs, Cre, Cim; cbn [fst snd].
  pose proof (sin2_cos2 a) as H. unfold Rsqr in H.
  replace ((n * cos a) ^ 2 + (n * sin a) ^ 2) with (Rsqr n)
    by (unfold Rsqr; nra).
  apply sqrt_Rsqr_abs.
Qed.

Lemma bget_In {A : Type} (a : list A) (i : nat) (x : A) :
  bget a i = Some x -> In x a.
Proof.
  destruct a as [|x0 [|x1 a]]; simpl.
  - destruct i; discriminate.
  - intros [= <-]. left. reflexivity.
  - intros H. apply (nth_error_In (x0 :: x1 :: a) i H).
Qed.

(** Over the reals (no rounding, no overflow), the mean norm is never
    negative and never above a bound of the absolute values of the norms. *)
Theorem vector_average_norm_bound (angles norm : list fl) (B : R)
        (ang : fl) (m : R) :
  (forall n, In (Some n) norm -> Rabs n <= B) ->
  vector_average angles norm = Some (ang, Some m) ->
  0 <= m <= B.
Proof.
  intros HB. unfold vector_average.
  destruct (broadcast2 vector_term norm angles) as [terms|] eqn:Eb;
    [|discriminate].
  assert (Forall (fun z => Cabs z <= B) (not_nan terms)) as HF.
  { apply Forall_forall. intros z Hz. apply not_nan_In in Hz.
    destruct (In_nth_error _ _ Hz) as [i Hi].
    destruct (broadcast2_nth _ _ _ _ _ _ Eb Hi) as (n & a & Hn & _ & Hv).
    destruct n as [n|], a as [a|]; try discriminate.
    cbn [vector_term] in Hv. rewrite vector_term_polar in Hv.
    injection Hv as ->. rewrite Cabs_polar.
    apply HB. apply (bget_In _ _ _ Hn). }
  unfold nanmean.
  destruct (not_nan terms) as [|z zs]; [discriminate|].
  pose proof (INR_length_cons_pos z zs) as HN.
  cbn [option_map]. intros [= _ <-].
  split; [apply Cabs_nonneg|].
  rewrite Cabs_div_real by exact HN.
  pose proof (Cabs_Csum_le B _ HF) as Hle.
  apply (Rmult_le_reg_r (INR (length (z :: zs)))); [exact HN|].
  unfold Rdiv. rewrite Rmult_assoc, Rinv_l by lra.
  change (Csum (z :: zs)) with (Cadd z (Csum zs)) in Hle. lra.
Qed.

Lemma vector_average_norm_bound_witness : 0 <= cosd 1 <= 1.
Proof.
  apply (vector_average_norm_bound [Some 359; Some 1] [Some 1; Some 1] 1
                                   (Some 0) (cosd 1)).
  - intros n [H|[H|[]]]; injection H as <-; rewrite Rabs_R1; lra.
  - exact vector_average_359_1.
Defined.

(** *** Samples of one direction *)

Lemma broadcast2_singleton_r {A B X : Type} (f : A -> B -> X) a (y : B) :
  a <> [] -> broadcast2 f a [y] = Some (map (fun x => f x y) a).
Proof.
  destruct a as [|x0 [|x1 a]]; [congruence| |]; reflexivity.
Qed.

Lemma Rsum_pos (ns : list R) :
  ns <> [] -> Forall (fun n => 0 < n) ns -> 0 < Rsum ns.
Proof.
  intros Hne HF. induction HF as [|n ns Hn HF IH]; [congruence|].
  simpl. destruct ns as [|n' ns'].
  - simpl. lra.
  - assert (0 < Rsum (n' :: ns')) by (apply IH; discriminate). lra.
Qed.

Lemma Csum_common (c s : R) (ns : list R) :
  Csum (map (fun n => (n * c, n * s)) ns) = (Rsum ns * c, Rsum ns * s).
Proof.
  induction ns as [|n ns IH]; simpl.
  - f_equal; ring.
  - rewrite IH. unfold Cadd, Cre, Cim; simpl. f_equal; ring.
Qed.

Lemma nanmean_values (l : list (option C)) :
  not_nan l <> [] ->
  nanmean l = Some (Cdiv_real (Csum (not_nan l)) (INR (length (not_nan l)))).
Proof.
  intros H. unfold nanmean. destruct (not_nan l); [congruence|reflexivity].
Qed.

Lemma not_nan_map_Some {A B : Type} (g : A -> B) (l : list A) :
  not_nan (map (fun n => Some (g n)) l) = map g l.
Proof.
  induction l as [|n l IH]; simpl; [reflexivity|]. rewrite IH. reflexivity.
Qed.

(** Over the reals (no rounding, no overflow), samples that all point in one
    direction of [(-180, 180]], given once and broadcast against positive
    norms, average to that direction and to the arithmetic mean of the
    norms. *)
Theorem vector_average_common_direction (a : R) (ns : list R) :
  ns <> [] -> Forall (fun n => 0 < n) ns -> -180 < a <= 180 ->
  vector_average [Some a] (map Some ns)
  = Some (Some a, Some (Rsum ns / INR (length ns))).
Proof.
  intros Hne Hpos Ha. unfold vector_average.
  rewrite broadcast2_singleton_r by (destruct ns; [congruence|discriminate]).
  rewrite map_map.
  rewrite (map_ext _ (fun n => Some (n * cos (radians a), n * sin (radians a))))
    by (intros n; cbn [vector_term]; rewrite vector_term_polar; reflexivity).
  pose proof (Rsum_pos ns Hne Hpos) as HS.
  assert (0 < INR (length ns)) as HN.
  { destruct ns as [|n0 ns]; [congruence|]. apply INR_length_cons_pos. }
  rewrite nanmean_values
    by (rewrite not_nan_map_Some; destruct ns; [congruence|discriminate]).
  rewrite not_nan_map_Some, Csum_common, length_map. cbn [option_map].
  set (r := Rsum ns / INR (length ns)).
  assert (0 < r) as Hr by (apply Rdiv_lt_0_compat; assumption).
  assert (Cdiv_real (Rsum ns * cos (radians a), Rsum ns * sin (radians a))
                    (INR (length ns))
          = (r * cos (radians a), r * sin (radians a))) as ->.
  { unfold Cdiv_real, Cre, Cim, r; cbn [fst snd]. f_equal; field; lra. }
  unfold Cangle, Cabs, Cre, Cim; cbn [fst snd].
  rewrite hypot_of_polar by lra.
  rewrite arctan2_polar_point by (try apply radians_half_turn; assumption).
  rewrite degrees_radians. reflexivity.
Qed.

Lemma vector_average_common_direction_witness :
  vector_average [Some 120] (map Some [1; 3])
  = Some (Some 120, Some (Rsum [1; 3] / INR (length [1; 3]))).
Proof.
  apply (vector_average_common_direction 120 [1; 3]).
  - discriminate.
  - repeat constructor; lra.
  - lra.
Defined.

End VectorProps.

(** ** More on make_angular_PDF *)

Module PdfProps.
Import Broadcast BroadcastProps Binning BinningProps.
Local Open Scope Q_scope.

(** *** The indexing of the centres *)

Lemma py_index_first_two (edges : list Q) :
  (2 <= length edges)%nat ->
  exists e0 e1, py_index edges 0 = Some e0 /\ py_index edges 1 = Some e1.
Proof.
  destruct edges as [|x [|y rest]]; simpl; try lia.
  intros _. exists x, y. split; reflexivity.
Qed.

Lemma pdf_bin_centers_some (edges : list Q) :
  (2 <= length edges)%nat ->
  exists e0 e1,
    py_index edges 0 = Some e0 /\ py_index edges 1 = Some e1 /\
    pdf_bin_centers edges = Some (map (fun e => e - (e1 - e0) / 2) (tl edges)).
Proof.
  intros H. destruct (py_index_first_two edges H) as (e0 & e1 & H0 & H1).
  exists e0, e1. split; [exact H0|]. split; [exact H1|].
  unfold pdf_bin_centers. rewrite H0, H1, py_slice_tail. reflexivity.
Qed.


(** *** Samples outside the edges *)

Lemma in_bin_in_range (edges : list Q) (i : nat) (a : Q) :
  valid_bins edges = true -> in_bin edges i a = true ->
  in_range edges a = true.
Proof.
  intros Hv Hin.
  pose proof (hits_in_range edges a Hv) as Hh.
  destruct (in_range edges a); [reflexivity|].
  assert (In i (hits edges a)) as Hi.
  { unfold hits. apply filter_In. split; [|exact Hin].
    apply in_seq. pose proof (in_bin_index _ _ _ Hin). lia. }
  destruct (hits edges a); [destruct Hi|discriminate].
Qed.

Lemma combine_app_cons {A B : Type} (a1 a2 : list A) (b1 b2 : list B) x y :
  length a1 = length b1 ->
  combine (a1 ++ x :: a2) (b1 ++ y :: b2)
  = combine a1 b1 ++ (x, y) :: combine a2 b2.
Proof.
  revert b1; induction a1 as [|u a1 IH]; intros [|v b1]; simpl;
    try discriminate; auto.
  intros [= H]. rewrite IH by exact H. reflexivity.
Qed.

Lemma bin_total_out_of_range (edges : list Q) (s1 s2 : list (Q * Q))
      (a w : Q) (i : nat) :
  in_bin edges i a = false ->
  bin_total edges (s1 ++ (a, w) :: s2) i = bin_total edges (s1 ++ s2) i.
Proof.
  intros H. unfold bin_total, bin_samples.
  rewrite !filter_app. simpl. rewrite H. reflexivity.
Qed.

(** With at least two increasing edges, one weight per angle and at least
    one other sample, a sample outside the edges, with whatever weight, does
    not change the density nor the centres. *)
Theorem make_angular_PDF_ignores_out_of_range
        (a1 a2 w1 w2 : list Q) (a w : Q) (bin_edges : list Q) :
  valid_bins bin_edges = true ->
  length a1 = length w1 -> length a2 = length w2 ->
  a1 ++ a2 <> [] ->
  in_range bin_edges a = false ->
  make_angular_PDF (a1 ++ a :: a2) (w1 ++ w :: w2) bin_edges
  = make_angular_PDF (a1 ++ a2) (w1 ++ w2) bin_edges.
Proof.
  intros Hv Hlen Hlen2 _ Hout.
  assert (histogram (a1 ++ a :: a2) bin_edges (Some (w1 ++ w :: w2))
          = histogram (a1 ++ a2) bin_edges (Some (w1 ++ w2))) as E.
  { unfold histogram. rewrite Hv.
    unfold samples. rewrite !List.length_app. simpl length.
    rewrite Hlen, Hlen2, !Nat.eqb_refl.
    f_equal. apply map_ext. intros i.
    rewrite combine_app_cons by exact Hlen.
    assert (combine (a1 ++ a2) (w1 ++ w2) = combine a1 w1 ++ combine a2 w2)
      as ->.
    { clear -Hlen. revert w1 Hlen.
      induction a1 as [|u a1 IH]; intros [|v w1]; simpl;
        try discriminate; auto.
      intros [= H]. rewrite IH by exact H. reflexivity. }
    apply bin_total_out_of_range.
    destruct (in_bin bin_edges i a) eqn:Hin; [|reflexivity].
    rewrite (in_bin_in_range _ _ _ Hv Hin) in Hout. discriminate. }
  unfold make_angular_PDF, histogram_density. rewrite E. reflexivity.
Qed.

Lemma make_angular_PDF_ignores_out_of_range_witness :
  make_angular_PDF ([1 # 2] ++ 400 :: [2]) ([1] ++ 7 :: [3]) [0; 1; 3]
  = make_angular_PDF ([1 # 2] ++ [2]) ([1] ++ [3]) [0; 1; 3].
Proof.
  apply (make_angular_PDF_ignores_out_of_range [1 # 2] [2] [1] [3] 400 7
                                               [0; 1; 3]);
    try reflexivity.
  discriminate.
Defined.

(** *** The values of the density *)

Lemma Qsum_nonneg (l : list Q) : Forall (fun x => 0 <= x) l -> 0 <= Qsum l.
Proof.
  induction 1 as [|x l Hx Hl IH]; simpl; [apply Qle_refl|].
  lra.
Qed.

Lemma bin_total_nonneg (edges : list Q) (smp : list (Q * Q)) (i : nat) :
  Forall (fun s => 0 <= snd s) smp -> 0 <= bin_total edges smp i.
Proof.
  intros H. unfold bin_total, bin_samples. apply Qsum_nonneg.
  apply Forall_forall. intros x Hx. apply in_map_iff in Hx.
  destruct Hx as (s & <- & Hs). apply filter_In in Hs.
  rewrite Forall_forall in H. apply H, Hs.
Qed.

Lemma strictly_increasing_pos_widths (edges : list Q) :
  strictly_increasing edges = true ->
  Forall (fun w => 0 < w) (np_diff edges).
Proof.
  induction edges as [|x [|y rest] IH]; intros H; try constructor.
  - change (strictly_increasing (x :: y :: rest))
      with (Qlt_bool x y && strictly_increasing (y :: rest)) in H.
    apply andb_true_iff in H. destruct H as [Hxy _].
    apply Qlt_bool_iff in Hxy. lra.
  - apply IH.
    change (strictly_increasing (x :: y :: rest))
      with (Qlt_bool x y && strictly_increasing (y :: rest)) in H.
    apply andb_true_iff in H. apply H.
Qed.

Lemma zip_with_Forall2 {A B X : Type} (P : A -> Prop) (Q' : B -> Prop)
      (R : X -> Prop) (f : A -> B -> X) a b :
  (forall x y, P x -> Q' y -> R (f x y)) ->
  Forall P a -> Forall Q' b -> Forall R (zip_with f a b).
Proof.
  intros Hf Ha. revert b. induction Ha as [|x a Hx Ha IH]; intros b Hb.
  - constructor.
  - destruct Hb as [|y b Hy Hb]; simpl; constructor; auto.
Qed.

Lemma Qdiv_nonneg (c w : Q) : 0 <= c -> 0 < w -> 0 <= c / w.
Proof.
  intros Hc Hw. apply Qle_shift_div_l; [exact Hw|]. lra.
Qed.

(** With strictly increasing edges, weights that are not negative and a
    weight in range that is not zero, every entry of the density is a
    number (no NaN) and is not negative. *)
Theorem make_angular_PDF_nonnegative
        (angles weight bin_edges : list Q) (density : list fq)
        (centers : list Q) :
  make_angular_PDF angles weight bin_edges = Some (density, centers) ->
  strictly_increasing bin_edges = true ->
  Forall (fun w => 0 <= w) weight ->
  ~ weight_in_range angles weight bin_edges == 0 ->
  Forall (fun d => exists q, d = Some q /\ 0 <= q) density.
Proof.
  unfold make_angular_PDF, histogram_density.
  destruct (histogram angles bin_edges (Some weight)) as [h|] eqn:Eh;
    [|discriminate].
  destruct (pdf_bin_centers bin_edges) as [cs|]; [|discriminate].
  intros [= <- _] Hinc Hw HT.
  pose proof (histogram_total _ _ _ _ Eh) as Htot.
  assert (Forall (fun c => 0 <= c) h) as Hh.
  { unfold histogram in Eh.
    destruct (valid_bins bin_edges); [|discriminate].
    destruct (samples angles (Some weight)) as [smp|] eqn:Es; [|discriminate].
    destruct (samples_weighted _ _ _ Es) as [-> _].
    injection Eh as <-. apply Forall_forall. intros x Hx.
    apply in_map_iff in Hx. destruct Hx as (i & <- & _).
    apply bin_total_nonneg. apply Forall_forall. intros [a w] Hin.
    apply in_combine_r in Hin. rewrite Forall_forall in Hw. apply Hw, Hin. }
  assert (0 < Qsum h) as Hpos.
  { pose proof (Qsum_nonneg h Hh) as H0.
    destruct (Qlt_le_dec 0 (Qsum h)) as [H|H]; [exact H|].
    exfalso. apply HT. rewrite <- Htot. lra. }
  apply (zip_with_Forall2 (fun c => 0 <= c) (fun w => 0 < w)).
  - intros c w Hc Hwpos. cbv beta.
    assert (~ w == 0) as Hw0 by lra. assert (~ Qsum h == 0) as HT0 by lra.
    fold (np_divide (Some c) (Some w)).
    rewrite (np_divide_some c w Hw0), (np_divide_some (c / w) (Qsum h) HT0).
    eexists. split; [reflexivity|].
    apply Qdiv_nonneg; [|exact Hpos]. apply Qdiv_nonneg; assumption.
  - exact Hh.
  - apply strictly_increasing_pos_widths, Hinc.
Qed.

Lemma make_angular_PDF_nonnegative_witness :
  exists density centers,
    make_angular_PDF [1 # 2; 2] [1; 3] [0; 1; 3] = Some (density, centers) /\
    Forall (fun d => exists q, d = Some q /\ 0 <= q) density.
Proof.
  destruct (make_angular_PDF [1 # 2; 2] [1; 3] [0; 1; 3])
    as [[density centers]|] eqn:E; [|vm_compute in E; discriminate].
  exists density, centers. split; [reflexivity|].
  apply (make_angular_PDF_nonnegative _ _ _ _ _ E).
  - reflexivity.
  - repeat constructor; discriminate.
  - vm_compute. discriminate.
Defined.

(** *** Rescaled weights *)



Lemma Qeq_bool_congr (x y : Q) : x == y -> Qeq_bool x 0 = Qeq_bool y 0.
Proof.
  intros E. destruct (Qeq_bool y 0) eqn:Ey.
  - apply Qeq_bool_iff. apply Qeq_bool_iff in Ey. rewrite E. exact Ey.
  - apply Qeq_bool_false. intros Hx. rewrite E in Hx.
    apply Qeq_bool_iff in Hx. congruence.
Qed.




(** *** The two centre formulas *)

Lemma np_diff_nth (edges : list Q) (i : nat) (lo hi : Q) :
  nth_error edges i = Some lo -> nth_error edges (S i) = Some hi ->
  nth_error (np_diff edges) i = Some (hi - lo).
Proof.
  revert i. induction edges as [|x edges IH]; intros i Hlo Hhi.
  - destruct i; discriminate.
  - destruct edges as [|y rest]; [destruct i; discriminate|].
    destruct i as [|i].
    + simpl in Hlo, Hhi. injection Hlo as ->. injection Hhi as ->. reflexivity.
    + change (np_diff (x :: y :: rest)) with ((y - x) :: np_diff (y :: rest)).
      change (nth_error ((y - x) :: np_diff (y :: rest)) (S i))
        with (nth_error (np_diff (y :: rest)) i).
      apply IH; assumption.
Qed.

(** In exact (rational) arithmetic, on edges of one spacing the centres of
    [make_angular_PDF] and those of [make_angular_average] are the same
    numbers, bin by bin. *)
Theorem bin_centers_agree_on_uniform_edges
        (bin_edges : list Q) (w : Q) (i : nat) (lo hi : Q) :
  Forall (fun d => d == w) (np_diff bin_edges) ->
  nth_error bin_edges i = Some lo -> nth_error bin_edges (S i) = Some hi ->
  exists cs c c',
    pdf_bin_centers bin_edges = Some cs /\
    nth_error cs i = Some c /\
    nth_error (average_bin_centers bin_edges) i = Some c' /\
    c == c'.
Proof.
  intros Hu Hlo Hhi.
  assert (2 <= length bin_edges)%nat as Hlen.
  { assert (S i < length bin_edges)%nat
      by (apply nth_error_Some; congruence). lia. }
  destruct (pdf_bin_centers_some bin_edges Hlen) as (e0 & e1 & H0 & H1 & Hcs).
  destruct (average_bin_centers_nth bin_edges i lo hi Hlo Hhi)
    as (c' & Hc' & Ec').
  exists (map (fun e => e - (e1 - e0) / 2) (tl bin_edges)),
         (hi - (e1 - e0) / 2), c'.
  split; [exact Hcs|]. split.
  { apply (map_nth_error (fun e => e - (e1 - e0) / 2)).
    rewrite tl_nth. exact Hhi. }
  split; [exact Hc'|].
  rewrite Forall_forall in Hu.
  assert (hi - lo == w) as Ew.
  { apply Hu. apply (nth_error_In _ i). apply np_diff_nth; assumption. }
  assert (e1 - e0 == w) as E01.
  { apply Hu. apply (nth_error_In _ 0%nat). apply np_diff_nth.
    - destruct bin_edges; simpl in *; [lia|exact H0].
    - destruct bin_edges as [|x [|y rest]]; simpl in *; try lia. exact H1. }
  rewrite Ec', E01, <- Ew. field.
Qed.

Lemma bin_centers_agree_on_uniform_edges_witness :
  exists cs c c',
    pdf_bin_centers [0; 2; 4; 6] = Some cs /\
    nth_error cs 2 = Some c /\
    nth_error (average_bin_centers [0; 2; 4; 6]) 2 = Some c' /\
    c == c'.
Proof.
  apply (bin_centers_agree_on_uniform_edges [0; 2; 4; 6] 2 2 4 6).
  - repeat constructor.
  - reflexivity.
  - reflexivity.
Defined.

End PdfProps.

(** ** More on make_angular_average *)

Module AverageProps.
Import Broadcast BroadcastProps Binning BinningProps Store StoreProps.
Local Open Scope Q_scope.

(** *** Running the primitives *)

Lemma bind_run {A B : Type} (m : M A) (f : A -> M B) s a s' :
  m s = Some (a, s') -> bind m f s = f a s'.
Proof. unfold bind. intros ->. reflexivity. Qed.

Lemma read_run (r : ref) (s : store) (a : list Q) :
  s !! r = Some a -> read r s = Some (a, s).
Proof. unfold read, lift. intros ->. reflexivity. Qed.

Lemma lift_run {A : Type} (o : option A) (s : store) (a : A) :
  o = Some a -> lift o s = Some (a, s).
Proof. intros ->. reflexivity. Qed.

Lemma call_histogram_weighted_run (angles bins wr : ref) (s : store) a e w h :
  s !! angles = Some a -> s !! bins = Some e -> s !! wr = Some w ->
  histogram a e (Some w) = Some h ->
  call_histogram angles bins (Some wr) s
  = Some (fresh (dom s), <[fresh (dom s) := h]> s).
Proof.
  intros Ha He Hw Hh. unfold call_histogram.
  rewrite (bind_run _ _ _ _ _ (read_run _ _ _ Ha)).
  rewrite (bind_run _ _ _ _ _ (read_run _ _ _ He)).
  rewrite (bind_run (let! w := read wr in ret (Some w)) _ s (Some w) s)
    by (rewrite (bind_run _ _ _ _ _ (read_run _ _ _ Hw)); reflexivity).
  rewrite (bind_run _ _ _ _ _ (lift_run _ _ _ Hh)).
  reflexivity.
Qed.

Lemma call_histogram_counts_run (angles bins : ref) (s : store) a e c :
  s !! angles = Some a -> s !! bins = Some e ->
  histogram a e None = Some c ->
  call_histogram angles bins None s
  = Some (fresh (dom s), <[fresh (dom s) := c]> s).
Proof.
  intros Ha He Hc. unfold call_histogram.
  rewrite (bind_run _ _ _ _ _ (read_run _ _ _ Ha)).
  rewrite (bind_run _ _ _ _ _ (read_run _ _ _ He)).
  rewrite (bind_run (ret None) _ s None s) by reflexivity.
  rewrite (bind_run _ _ _ _ _ (lift_run _ _ _ Hc)).
  reflexivity.
Qed.

Lemma assign_where_zero_run (target source : ref) (v : Q) (s : store) a c a' :
  s !! target = Some a -> s !! source = Some c ->
  masked_assign a (eq_zero c) v = Some a' ->
  assign_where_zero target source v s = Some (tt, <[target := a']> s).
Proof.
  intros Ha Hc Hm. unfold assign_where_zero.
  rewrite (bind_run _ _ _ _ _ (read_run _ _ _ Ha)).
  rewrite (bind_run _ _ _ _ _ (read_run _ _ _ Hc)).
  rewrite (bind_run _ _ _ _ _ (lift_run _ _ _ Hm)).
  reflexivity.
Qed.

(** The call, run forward from the contents of its three arguments. *)
Lemma make_angular_average_run (angles weight bin_edges : ref) (s : store)
      a w e h c h' c' avg :
  s !! angles = Some a -> s !! weight = Some w -> s !! bin_edges = Some e ->
  histogram a e (Some w) = Some h -> histogram a e None = Some c ->
  masked_assign h (eq_zero c) 1 = Some h' ->
  masked_assign c (eq_zero c) 1 = Some c' ->
  divide_arrays h' c' = Some avg ->
  exists s',
    make_angular_average angles weight bin_edges s
    = Some ((avg, average_bin_centers e), s').
Proof.
  intros Ha Hw He Hh Hc Hh' Hc' Hd.
  set (hist := fresh (dom s)).
  set (s1 := <[hist := h]> s).
  set (counts := fresh (dom s1)).
  set (s2 := <[counts := c]> s1).
  assert (angles <> hist) as Hah by (eapply lookup_fresh_ne; eauto).
  assert (bin_edges <> hist) as Heh by (eapply lookup_fresh_ne; eauto).
  assert (s1 !! angles = Some a) as Ha1
      by (unfold s1; rewrite lookup_insert_ne by auto; exact Ha).
  assert (s1 !! bin_edges = Some e) as He1
      by (unfold s1; rewrite lookup_insert_ne by auto; exact He).
  assert (s1 !! hist = Some h) as Hh1 by (unfold s1; apply lookup_insert_eq).
  assert (hist <> counts) as Hhc by (eapply lookup_fresh_ne; eauto).
  assert (bin_edges <> counts) as Hec by (eapply lookup_fresh_ne; eauto).
  assert (s2 !! bin_edges = Some e) as He2
      by (unfold s2; rewrite lookup_insert_ne by auto; exact He1).
  assert (s2 !! hist = Some h) as Hh2
      by (unfold s2; rewrite lookup_insert_ne by auto; exact Hh1).
  assert (s2 !! counts = Some c) as Hc2 by (unfold s2; apply lookup_insert_eq).
  set (s3 := <[hist := h']> s2).
  assert (s3 !! counts = Some c) as Hc3
      by (unfold s3; rewrite lookup_insert_ne by auto; exact Hc2).
  set (s4 := <[counts := c']> s3).
  assert (s4 !! hist = Some h') as Hh4.
  { unfold s4. rewrite lookup_insert_ne by auto.
    unfold s3. apply lookup_insert_eq. }
  assert (s4 !! counts = Some c') as Hc4 by (unfold s4; apply lookup_insert_eq).
  exists s4. unfold make_angular_average.
  rewrite (bind_run _ _ _ _ _
             (call_histogram_weighted_run _ _ _ _ _ _ _ _ Ha He Hw Hh)).
  fold hist. fold s1.
  rewrite (bind_run _ _ _ _ _
             (call_histogram_counts_run _ _ _ _ _ _ Ha1 He1 Hc)).
  fold counts. fold s2.
  rewrite (bind_run (let! e0 := read bin_edges in ret (average_bin_centers e0))
                    _ s2 (average_bin_centers e) s2)
    by (rewrite (bind_run _ _ _ _ _ (read_run _ _ _ He2)); reflexivity).
  rewrite (bind_run _ _ _ _ _ (assign_where_zero_run _ _ _ _ _ _ _ Hh2 Hc2 Hh')).
  fold s3.
  rewrite (bind_run _ _ _ _ _ (assign_where_zero_run _ _ _ _ _ _ _ Hc3 Hc3 Hc')).
  fold s4.
  rewrite (bind_run _ _ _ _ _ (read_run _ _ _ Hh4)).
  rewrite (bind_run _ _ _ _ _ (read_run _ _ _ Hc4)).
  rewrite (bind_run _ _ _ _ _ (lift_run _ _ _ Hd)).
  reflexivity.
Qed.

(** What existed before the call is still there after it. *)
Lemma make_angular_average_frame (angles weight bin_edges : ref) s r s' :
  make_angular_average angles weight bin_edges s = Some (r, s') ->
  forall l x, s !! l = Some x -> s' !! l = Some x.
Proof.
  intros H.
  apply make_angular_average_inv in H
    as (a & w & e & h & c & h' & c' & avg & _ & _ & _ & _ & _ & _ & _ & _ & _
        & hist & counts & Hhist & Hcounts & ->).
  intros l x Hl.
  assert (l <> hist) as Hlh by (subst hist; eapply lookup_fresh_ne; eauto).
  assert (l <> counts) as Hlc.
  { subst counts. apply (lookup_fresh_ne (<[hist:=h]> s) l x).
    rewrite lookup_insert_ne by auto. exact Hl. }
  rewrite lookup_insert_ne by auto. rewrite lookup_insert_ne by auto.
  rewrite lookup_insert_ne by auto. rewrite lookup_insert_ne by auto.
  exact Hl.
Qed.

(** *** The result depends on the three arrays only *)

(** The result of a call that returns is the result of a call in any store
    where the three arguments hold the same contents; in particular of the
    same call made again, in the store the first call has left. *)
Theorem make_angular_average_repeatable
        (angles weight bin_edges : ref) (s s' : store) (r : list fq * list Q) :
  make_angular_average angles weight bin_edges s = Some (r, s') ->
  (forall t : store,
      t !! angles = s !! angles -> t !! weight = s !! weight ->
      t !! bin_edges = s !! bin_edges ->
      exists t', make_angular_average angles weight bin_edges t = Some (r, t'))
  /\ exists s'', make_angular_average angles weight bin_edges s' = Some (r, s'').
Proof.
  intros H.
  pose proof (make_angular_average_frame _ _ _ _ _ _ H) as Hframe.
  apply make_angular_average_inv in H
    as (a & w & e & h & c & h' & c' & avg & Ha & Hw & He & Hh & Hc & Hh' & Hc'
        & Hd & -> & _).
  assert (forall t : store,
             t !! angles = s !! angles -> t !! weight = s !! weight ->
             t !! bin_edges = s !! bin_edges ->
             exists t', make_angular_average angles weight bin_edges t
                        = Some ((avg, average_bin_centers e), t')) as Hany.
  { intros t Hta Htw Hte.
    apply (make_angular_average_run angles weight bin_edges t
             a w e h c h' c' avg); congruence. }
  split; [exact Hany|].
  apply Hany.
  - rewrite Ha. apply Hframe, Ha.
  - rewrite Hw. apply Hframe, Hw.
  - rewrite He. apply Hframe, He.
Qed.

Lemma make_angular_average_repeatable_witness :
  exists r s' s'',
    make_angular_average 1 2 3 example_store = Some (r, s') /\
    make_angular_average 1 2 3 s' = Some (r, s'').
Proof.
  destruct (make_angular_average 1 2 3 example_store) as [[r s']|] eqn:E;
    [|vm_compute in E; discriminate].
  destruct (make_angular_average_repeatable 1 2 3 example_store s' r E)
    as [_ [s'' H]].
  exists r, s', s''. split; [reflexivity | exact H].
Defined.

(** *** The average of a bin lies between its weights *)

Lemma Qsum_bounds (lo hi : Q) (l : list Q) :
  Forall (fun x => lo <= x <= hi) l ->
  lo * inject_Z (Z.of_nat (length l)) <= Qsum l
  <= hi * inject_Z (Z.of_nat (length l)).
Proof.
  induction 1 as [|x l Hx Hl IH].
  - change (inject_Z (Z.of_nat (length (@nil Q)))) with 0.
    change (Qsum []) with 0. lra.
  - change (length (x :: l)) with (S (length l)).
    rewrite Nat2Z.inj_succ. unfold Z.succ. rewrite inject_Z_plus.
    simpl Qsum. change (inject_Z 1) with 1. lra.
Qed.

Lemma bin_samples_length (edges a w : list Q) (i : nat) :
  length a = length w ->
  length (bin_samples edges (combine a w) i) = bin_count edges a i.
Proof.
  unfold bin_samples, bin_count. revert w.
  induction a as [|x a IH]; intros [|y w]; simpl; try discriminate; auto.
  intros [= H]. destruct (in_bin edges i x); simpl; rewrite (IH w H);
    reflexivity.
Qed.

(** In exact (rational) arithmetic, when every weight lies between two
    bounds, so does the average of every bin that holds a sample. *)
Theorem make_angular_average_within_weights
        (angles weight bin_edges : ref) (s s' : store)
        (avg : list fq) (centers a w e : list Q) (lo hi : Q) (i : nat) :
  make_angular_average angles weight bin_edges s = Some ((avg, centers), s') ->
  s !! angles = Some a -> s !! weight = Some w -> s !! bin_edges = Some e ->
  (forall x, In x w -> lo <= x <= hi) ->
  (0 < bin_count e a i)%nat ->
  exists q, nth_error avg i = Some (Some q) /\ lo <= q <= hi.
Proof.
  intros H Ha Hw He Hb Hpos.
  apply make_angular_average_inv in H
    as (a0 & w0 & e0 & h & c & h' & c' & avg0 & Ha0 & Hw0 & He0 & Hh & Hc & Hh'
        & Hc' & Hd & Hr & _).
  assert (a0 = a) as -> by congruence. assert (e0 = e) as -> by congruence.
  assert (w0 = w) as -> by congruence.
  injection Hr as -> _.
  pose proof (bin_count_index _ _ _ Hpos) as Hi.
  destruct (average_nth _ _ _ _ _ _ _ _ i Hh Hc Hh' Hc' Hd Hi)
    as (cnt & Hcnt & Hn).
  assert (length a = length w) as Hlen.
  { unfold histogram in Hh. destruct (valid_bins e); [|discriminate].
    destruct (samples a (Some w)) as [smp|] eqn:Es; [|discriminate].
    apply (samples_weighted _ _ _ Es). }
  assert (0 < cnt) as Hcpos.
  { rewrite Hcnt. change 0 with (inject_Z 0). rewrite <- Zlt_Qlt. lia. }
  rewrite (Qeq_bool_false cnt 0) in Hn by lra.
  exists (bin_weight e a w i / cnt). split; [exact Hn|].
  assert (lo * cnt <= bin_weight e a w i <= hi * cnt) as [Hlo Hhi].
  { rewrite Hcnt, <- (bin_samples_length e a w i Hlen).
    unfold bin_weight, bin_total.
    rewrite <- (length_map snd (bin_samples e (combine a w) i)).
    apply Qsum_bounds. apply Forall_forall. intros x Hx.
    apply in_map_iff in Hx. destruct Hx as ([y z] & <- & Hin).
    apply filter_In in Hin. destruct Hin as [Hin _].
    apply in_combine_r in Hin. apply Hb, Hin. }
  split.
  - apply Qle_shift_div_l; assumption.
  - apply Qle_shift_div_r; assumption.
Qed.

Lemma make_angular_average_within_weights_witness :
  exists avg centers s' q,
    make_angular_average 1 2 3 example_store = Some ((avg, centers), s') /\
    nth_error avg 0 = Some (Some q) /\ 5 <= q <= 5.
Proof.
  destruct (make_angular_average 1 2 3 example_store)
    as [[[avg centers] s']|] eqn:E; [|vm_compute in E; discriminate].
  destruct (make_angular_average_within_weights 1 2 3 example_store s' avg
              centers [1 # 2] [5] [0; 1; 3] 5 5 0 E eq_refl eq_refl eq_refl)
    as (q & Hq & Hb).
  - intros x [<-|[]]. split; apply Qle_refl.
  - vm_compute. lia.
  - exists avg, centers, s', q. split; [reflexivity|]. split; assumption.
Defined.

End AverageProps.

(** ** The radius of cartesian_to_polar in binary64 *)

Module RadiusProps.
Import B64 B64Props.
Local Open Scope Z_scope.

Lemma radius_exact_check :
  forallb (fun k => (fun e => same_float
                                (sqrt (add (mul (ldexp_Z 1 e) (ldexp_Z 1 e))
                                           (mul zero zero)))
                                (ldexp_Z 1 e))
                      (-537 + Z.of_nat k))
          (seq 0 1049) = true.
Proof. vm_compute. reflexivity. Qed.

Lemma radius_overflow_check :
  forallb (fun k => (fun e => same_float
                                (sqrt (add (mul (ldexp_Z 1 e) (ldexp_Z 1 e))
                                           (mul zero zero)))
                                (S754_infinity false))
                      (512 + Z.of_nat k))
          (seq 0 512) = true.
Proof. vm_compute. reflexivity. Qed.

Lemma radius_underflow_check :
  forallb (fun k => (fun e => same_float
                                (sqrt (add (mul (ldexp_Z 1 e) (ldexp_Z 1 e))
                                           (mul zero zero)))
                                zero)
                      (-1074 + Z.of_nat k))
          (seq 0 537) = true.
Proof. vm_compute. reflexivity. Qed.

(** The radius is computed by squaring.  For [x] a power of two [2^e] of
    binary64 and [y = 0] it is [x] itself when [-537 <= e <= 511]; for a
    larger [e] the square overflows and the radius is infinite; for a smaller
    one the square underflows and the radius is zero, though [x] is not. *)
Theorem cartesian_to_polar_radius_powers_of_two
        (arctan2 : float -> float -> float) (e : Z) :
  (-537 <= e <= 511 ->
   fst (cartesian_to_polar arctan2 (ldexp_Z 1 e) zero) = ldexp_Z 1 e) /\
  (512 <= e <= 1023 ->
   fst (cartesian_to_polar arctan2 (ldexp_Z 1 e) zero) = S754_infinity false /\
   is_finite (ldexp_Z 1 e) = true) /\
  (-1074 <= e <= -538 ->
   fst (cartesian_to_polar arctan2 (ldexp_Z 1 e) zero) = zero /\
   is_zero (ldexp_Z 1 e) = false).
Proof.
  unfold cartesian_to_polar; cbn [fst].
  split; [|split]; intros He.
  - apply same_float_eq.
    apply (range_check _ (-537) 1049 radius_exact_check). lia.
  - split.
    + apply same_float_eq.
      apply (range_check _ 512 512 radius_overflow_check). lia.
    + apply (range_check (fun e => is_finite (ldexp_Z 1 e)) 512 512);
        [vm_compute; reflexivity | lia].
  - split.
    + apply same_float_eq.
      apply (range_check _ (-1074) 537 radius_underflow_check). lia.
    + apply negb_true_iff.
      apply (range_check (fun e => negb (is_zero (ldexp_Z 1 e))) (-1074) 537);
        [vm_compute; reflexivity | lia].
Qed.

Lemma cartesian_to_polar_radius_powers_of_two_witness :
  fst (cartesian_to_polar (fun _ _ => zero) (ldexp_Z 1 600) zero)
  = S754_infinity false.
Proof.
  destruct (cartesian_to_polar_radius_powers_of_two (fun _ _ => zero) 600)
    as (_ & H & _).
  apply H. lia.
Defined.

End RadiusProps.

(** ** The round trip of cartesian_to_polar *)

Module RoundTrip.
Import B64 B64Props.
Local Open Scope Z_scope.










End RoundTrip.
